(** * Animated eyes engine (src/eyes.py): model and verified properties

    The engine keeps two [Eye] records and a handful of flags, and a drawing
    thread repeats [update_eye_position], [update_eye_state],
    [update_eyelids] and a render pass.

    The numbers of the source are binary64 floats.  The model computes with
    exact rationals ([Q]): every arithmetic operation of the source is an
    addition, a subtraction or a division by a non-zero literal, apart from
    the render-time quotient by [eyelid_happy_h], which is modelled with its
    ZeroDivisionError.  The properties stated of the model are those that
    rounding to the nearest float preserves: which fields a method writes and
    from which values, bounds and invariants whose constants are floats (the
    rounding is monotone), and equalities between values that the code
    computes by the same operations on the same operands.  Where a property
    needs the arithmetic to be exact, it is not stated of the code; the
    expressions concerned are also given on primitive floats (section
    "Double precision") and evaluated there.  Results that are computed are
    compared with [==] (equality of fractions); fields that are merely
    copied are compared with [=]. *)

From Stdlib Require Import QArith Qabs Qminmax Qround Lqa List Bool ZArith Lia.
From Stdlib Require Import PrimFloat.
Import ListNotations.

Local Open Scope Q_scope.

(** ** Data model *)

Inductive EyesPosition : Type :=
| CENTER | TOP | LEFT | BOTTOM | RIGHT
| TOP_LEFT | TOP_RIGHT | BOTTOM_LEFT | BOTTOM_RIGHT.

Inductive EyesMood : Type :=
| NEUTRAL | ANGRY | TIRED | HAPPY | SAD.

Definition EyesMood_eqb (a b : EyesMood) : bool :=
  match a, b with
  | NEUTRAL, NEUTRAL | ANGRY, ANGRY | TIRED, TIRED
  | HAPPY, HAPPY | SAD, SAD => true
  | _, _ => false
  end.

Record Eye : Type := mkEye {
  x : Q;
  y : Q;
  w : Q;
  h : Q;
  x_next : Q;
  y_next : Q;
  w_next : Q;
  h_next : Q;
  eyelid_h_l : Q;
  eyelid_h_r : Q;
  eyelid_h_l_next : Q;
  eyelid_h_r_next : Q
}.

(** The attributes of [Eyes] that are written after [__init__].  The screen
    and default-eye attributes are assigned once in [__init__] and only read
    afterwards: they are the constants below. *)
Record Eyes : Type := mkEyes {
  eye_l : Eye;
  eye_r : Eye;
  eyelid_happy_h : Q;
  eyelid_happy_h_next : Q;
  is_open : bool;
  is_idle : bool;
  mood : EyesMood;
  idle_timer : Q;
  blink_timer : Q
}.

Definition screen_width : Q := 128.
Definition screen_height : Q := 64.
Definition default_eye_w : Q := 36.
Definition default_eye_h : Q := 36.
Definition default_eye_radius : Q := 8.
Definition default_eye_gap : Q := 10.

(** ** Attribute assignment *)

Definition with_x (v : Q) (e : Eye) : Eye :=
  mkEye v (y e) (w e) (h e) (x_next e) (y_next e) (w_next e) (h_next e)
        (eyelid_h_l e) (eyelid_h_r e) (eyelid_h_l_next e) (eyelid_h_r_next e).
Definition with_y (v : Q) (e : Eye) : Eye :=
  mkEye (x e) v (w e) (h e) (x_next e) (y_next e) (w_next e) (h_next e)
        (eyelid_h_l e) (eyelid_h_r e) (eyelid_h_l_next e) (eyelid_h_r_next e).
Definition with_w (v : Q) (e : Eye) : Eye :=
  mkEye (x e) (y e) v (h e) (x_next e) (y_next e) (w_next e) (h_next e)
        (eyelid_h_l e) (eyelid_h_r e) (eyelid_h_l_next e) (eyelid_h_r_next e).
Definition with_h (v : Q) (e : Eye) : Eye :=
  mkEye (x e) (y e) (w e) v (x_next e) (y_next e) (w_next e)
        (h_next e)
        (eyelid_h_l e) (eyelid_h_r e) (eyelid_h_l_next e) (eyelid_h_r_next e).
Definition with_x_next (v : Q) (e : Eye) : Eye :=
  mkEye (x e) (y e) (w e) (h e) v (y_next e) (w_next e)
        (h_next e)
        (eyelid_h_l e) (eyelid_h_r e) (eyelid_h_l_next e) (eyelid_h_r_next e).
Definition with_y_next (v : Q) (e : Eye) : Eye :=
  mkEye (x e) (y e) (w e) (h e) (x_next e) v (w_next e)
        (h_next e)
        (eyelid_h_l e) (eyelid_h_r e) (eyelid_h_l_next e) (eyelid_h_r_next e).
Definition with_h_next (v : Q) (e : Eye) : Eye :=
  mkEye (x e) (y e) (w e) (h e) (x_next e) (y_next e)
        (w_next e) v
        (eyelid_h_l e) (eyelid_h_r e) (eyelid_h_l_next e) (eyelid_h_r_next e).
Definition with_eyelid_h_l (v : Q) (e : Eye) : Eye :=
  mkEye (x e) (y e) (w e) (h e) (x_next e) (y_next e)
        (w_next e) (h_next e)
        v (eyelid_h_r e) (eyelid_h_l_next e) (eyelid_h_r_next e).
Definition with_eyelid_h_r (v : Q) (e : Eye) : Eye :=
  mkEye (x e) (y e) (w e) (h e) (x_next e) (y_next e)
        (w_next e) (h_next e)
        (eyelid_h_l e) v (eyelid_h_l_next e) (eyelid_h_r_next e).
Definition with_eyelid_h_l_next (v : Q) (e : Eye) : Eye :=
  mkEye (x e) (y e) (w e) (h e) (x_next e) (y_next e)
        (w_next e) (h_next e)
        (eyelid_h_l e) (eyelid_h_r e) v (eyelid_h_r_next e).
Definition with_eyelid_h_r_next (v : Q) (e : Eye) : Eye :=
  mkEye (x e) (y e) (w e) (h e) (x_next e) (y_next e)
        (w_next e) (h_next e)
        (eyelid_h_l e) (eyelid_h_r e) (eyelid_h_l_next e) v.

Definition on_eye_l (f : Eye -> Eye) (s : Eyes) : Eyes :=
  mkEyes (f (eye_l s)) (eye_r s) (eyelid_happy_h s) (eyelid_happy_h_next s)
         (is_open s) (is_idle s) (mood s) (idle_timer s) (blink_timer s).
Definition on_eye_r (f : Eye -> Eye) (s : Eyes) : Eyes :=
  mkEyes (eye_l s) (f (eye_r s)) (eyelid_happy_h s)
         (eyelid_happy_h_next s)
         (is_open s) (is_idle s) (mood s) (idle_timer s) (blink_timer s).
Definition with_eyelid_happy_h (v : Q) (s : Eyes) : Eyes :=
  mkEyes (eye_l s) (eye_r s) v (eyelid_happy_h_next s)
         (is_open s) (is_idle s) (mood s) (idle_timer s) (blink_timer s).
Definition with_eyelid_happy_h_next (v : Q) (s : Eyes) : Eyes :=
  mkEyes (eye_l s) (eye_r s) (eyelid_happy_h s) v
         (is_open s) (is_idle s) (mood s) (idle_timer s) (blink_timer s).
Definition with_is_open (v : bool) (s : Eyes) : Eyes :=
  mkEyes (eye_l s) (eye_r s) (eyelid_happy_h s)
         (eyelid_happy_h_next s)
         v (is_idle s) (mood s) (idle_timer s) (blink_timer s).
Definition with_is_idle (v : bool) (s : Eyes) : Eyes :=
  mkEyes (eye_l s) (eye_r s) (eyelid_happy_h s)
         (eyelid_happy_h_next s)
         (is_open s) v (mood s) (idle_timer s) (blink_timer s).
Definition with_mood (v : EyesMood) (s : Eyes) : Eyes :=
  mkEyes (eye_l s) (eye_r s) (eyelid_happy_h s)
         (eyelid_happy_h_next s)
         (is_open s) (is_idle s) v (idle_timer s) (blink_timer s).
Definition with_idle_timer (v : Q) (s : Eyes) : Eyes :=
  mkEyes (eye_l s) (eye_r s) (eyelid_happy_h s)
         (eyelid_happy_h_next s)
         (is_open s) (is_idle s) (mood s) v (blink_timer s).
Definition with_blink_timer (v : Q) (s : Eyes) : Eyes :=
  mkEyes (eye_l s) (eye_r s) (eyelid_happy_h s)
         (eyelid_happy_h_next s)
         (is_open s) (is_idle s) (mood s) (idle_timer s) v.

(** ** The engine's methods *)

(** [Eyes.__init__]: both eyes centred and closed. *)
Definition init_eye_x : Q :=
  (screen_width - ((default_eye_w * 2) + default_eye_gap)) / 2.
Definition init_eye_y : Q := (screen_height - default_eye_h) / 2.

Definition init : Eyes :=
  let eye_x := init_eye_x in
  let eye_y := init_eye_y in
  {| eye_l := {| x := eye_x; y := eye_y; w := default_eye_w; h := 1;
                 x_next := eye_x; y_next := eye_y;
                 w_next := default_eye_w; h_next := 1;
                 eyelid_h_l := eye_y; eyelid_h_r := eye_y;
                 eyelid_h_l_next := eye_y; eyelid_h_r_next := eye_y |};
     eye_r := {| x := eye_x + default_eye_w + default_eye_gap; y := eye_y;
                 w := default_eye_w; h := 1;
                 x_next := eye_x + default_eye_w + default_eye_gap;
                 y_next := eye_y;
                 w_next := default_eye_w; h_next := 1;
                 eyelid_h_l := eye_y; eyelid_h_r := eye_y;
                 eyelid_h_l_next := eye_y; eyelid_h_r_next := eye_y |};
     eyelid_happy_h := 1;
     eyelid_happy_h_next := 1;
     is_open := false;
     is_idle := false;
     mood := NEUTRAL;
     idle_timer := 0;
     blink_timer := 0 |}.

Definition interpolate (current target : Q) : Q := (current + target) / 2.

Definition get_max_x_limit (self : Eyes) : Q :=
  screen_width - w (eye_l self) - default_eye_gap - w (eye_r self).

Definition get_max_y_limit (self : Eyes) : Q :=
  screen_height - default_eye_h.

(** The dictionary built by [set_position], as a function of its key. *)
Definition positions (max_x max_y : Q) (value : EyesPosition) : Q * Q :=
  match value with
  | CENTER => (max_x / 2, max_y / 2)
  | TOP => (max_x / 2, 0)
  | LEFT => (0, max_y / 2)
  | BOTTOM => (max_x / 2, max_y)
  | RIGHT => (max_x, max_y / 2)
  | TOP_LEFT => (0, 0)
  | TOP_RIGHT => (max_x, 0)
  | BOTTOM_LEFT => (0, max_y)
  | BOTTOM_RIGHT => (max_x, max_y)
  end.

Definition set_position (value : EyesPosition) (self : Eyes) : Eyes :=
  let max_x := get_max_x_limit self in
  let max_y := get_max_y_limit self in
  let '(px, py) := positions max_x max_y value in
  on_eye_l (fun e => with_y_next py (with_x_next px e)) self.

Definition set_idle (value : bool) (self : Eyes) : Eyes :=
  let self := with_is_idle value self in
  if negb value then set_position CENTER self else self.

Definition set_mood (value : EyesMood) (self : Eyes) : Eyes :=
  with_mood value self.

Definition open (self : Eyes) : Eyes :=
  let self := on_eye_l (with_h_next default_eye_h) self in
  let self := on_eye_r (with_h_next default_eye_h) self in
  with_is_open true self.

Definition close (self : Eyes) : Eyes :=
  let self := on_eye_l (with_h_next 1) self in
  let self := on_eye_r (with_h_next 1) self in
  let self := with_is_open false self in
  set_position CENTER self.

Definition update_eye_position (self : Eyes) : Eyes :=
  (* size *)
  let self := on_eye_l (fun e => with_w (interpolate (w e) (w_next e)) e) self in
  let self := on_eye_l (fun e => with_h (interpolate (h e) (h_next e)) e) self in
  let self := on_eye_r (fun e => with_w (interpolate (w e) (w_next e)) e) self in
  let self := on_eye_r (fun e => with_h (interpolate (h e) (h_next e)) e) self in
  (* centering *)
  let self := on_eye_l (fun e => with_x (x e + (default_eye_w - w e) / 2) e) self in
  let self := on_eye_l (fun e => with_y (y e + (default_eye_h - h e) / 2) e) self in
  let self := on_eye_r (fun e => with_x (x e + (default_eye_w - w e) / 2) e) self in
  let self := on_eye_r (fun e => with_y (y e + (default_eye_h - h e) / 2) e) self in
  (* position *)
  let self := on_eye_l (fun e => with_x (interpolate (x e) (x_next e)) e) self in
  let self := on_eye_l (fun e => with_y (interpolate (y e) (y_next e)) e) self in
  (* position of the right eye relative to the left eye *)
  let self :=
    on_eye_r (with_x_next
                (x_next (eye_l self) + w (eye_l self) + default_eye_gap)) self in
  let self := on_eye_r (with_y_next (y_next (eye_l self))) self in
  let self := on_eye_r (fun e => with_x (interpolate (x e) (x_next e)) e) self in
  let self := on_eye_r (fun e => with_y (interpolate (y e) (y_next e)) e) self in
  self.

(** What one call of [update_eye_state] reads from outside the engine: the
    four readings of [time()] and the four draws behind the calls of
    [uniform], in the order of the source.  [random.uniform(a, b)] is
    [a + (b - a) * random()]; a draw is the value of [random()]. *)
Record World : Type := mkWorld {
  time_blink : Q;
  time_blink_set : Q;
  draw_blink : Q;
  time_idle : Q;
  draw_x : Q;
  draw_y : Q;
  time_idle_set : Q;
  draw_idle : Q
}.

Definition uniform (a b draw : Q) : Q := a + (b - a) * draw.

(** The three blocks of [update_eye_state]. *)
Definition reopen_after_blink (self : Eyes) : Eyes :=
  if is_open self then
    let self :=
      if Qle_bool (h (eye_l self)) 1.1
      then on_eye_l (with_h_next default_eye_h) self else self in
    let self :=
      if Qle_bool (h (eye_r self)) 1.1
      then on_eye_r (with_h_next default_eye_h) self else self in
    self
  else self.

Definition blink (env : World) (self : Eyes) : Eyes :=
  if Qle_bool (blink_timer self) (time_blink env) && is_open self then
    let self := on_eye_l (with_h_next 1) self in
    let self := on_eye_r (with_h_next 1) self in
    with_blink_timer (time_blink_set env + uniform 3 6 (draw_blink env)) self
  else self.

Definition idle_movement (env : World) (self : Eyes) : Eyes :=
  if is_idle self && is_open self
     && Qle_bool (idle_timer self) (time_idle env) then
    let self :=
      on_eye_l (with_x_next (uniform 0 (get_max_x_limit self) (draw_x env)))
               self in
    let self :=
      on_eye_l (with_y_next (uniform 0 (get_max_y_limit self) (draw_y env)))
               self in
    with_idle_timer (time_idle_set env + uniform 3 6 (draw_idle env)) self
  else self.

Definition update_eye_state (env : World) (self : Eyes) : Eyes :=
  let self := reopen_after_blink self in
  let self := blink env self in
  let self := idle_movement env self in
  self.

Definition update_eyelids (self : Eyes) : Eyes :=
  (* neutral *)
  let self :=
    if EyesMood_eqb (mood self) NEUTRAL || EyesMood_eqb (mood self) HAPPY then
      let self := on_eye_l (fun e => with_eyelid_h_l_next (y e) e) self in
      let self := on_eye_l (fun e => with_eyelid_h_r_next (y e) e) self in
      let self := on_eye_r (fun e => with_eyelid_h_l_next (y e) e) self in
      let self := on_eye_r (fun e => with_eyelid_h_r_next (y e) e) self in
      self
    else self in
  (* angry *)
  let self :=
    if EyesMood_eqb (mood self) ANGRY then
      let self := on_eye_l (fun e => with_eyelid_h_l_next (y e + (h e / 4)) e) self in
      let self := on_eye_l (fun e => with_eyelid_h_r_next (y e + (h e / 2)) e) self in
      let self := on_eye_r (fun e => with_eyelid_h_l_next (y e + (h e / 2)) e) self in
      let self := on_eye_r (fun e => with_eyelid_h_r_next (y e + (h e / 4)) e) self in
      self
    else self in
  (* sad *)
  let self :=
    if EyesMood_eqb (mood self) SAD then
      let self := on_eye_l (fun e => with_eyelid_h_l_next (y e + (h e / 2)) e) self in
      let self := on_eye_l (fun e => with_eyelid_h_r_next (y e + (h e / 4)) e) self in
      let self := on_eye_r (fun e => with_eyelid_h_l_next (y e + (h e / 4)) e) self in
      let self := on_eye_r (fun e => with_eyelid_h_r_next (y e + (h e / 2)) e) self in
      self
    else self in
  (* tired *)
  let self :=
    if EyesMood_eqb (mood self) TIRED then
      let self := on_eye_l (fun e => with_eyelid_h_l_next (y e + (h e / 1.2)) e) self in
      let self := on_eye_l (fun e => with_eyelid_h_r_next (y e + (h e / 1.4)) e) self in
      let self := on_eye_r (fun e => with_eyelid_h_l_next (y e + (h e / 1.4)) e) self in
      let self := on_eye_r (fun e => with_eyelid_h_r_next (y e + (h e / 1.2)) e) self in
      self
    else self in
  (* happy *)
  let self :=
    with_eyelid_happy_h_next
      (if EyesMood_eqb (mood self) HAPPY then 3 else 1) self in
  let self :=
    with_eyelid_happy_h
      (interpolate (eyelid_happy_h self) (eyelid_happy_h_next self)) self in
  let self :=
    on_eye_l (fun e => with_eyelid_h_l
                         (interpolate (eyelid_h_l e) (eyelid_h_l_next e)) e) self in
  let self :=
    on_eye_l (fun e => with_eyelid_h_r
                         (interpolate (eyelid_h_r e) (eyelid_h_r_next e)) e) self in
  let self :=
    on_eye_r (fun e => with_eyelid_h_l
                         (interpolate (eyelid_h_l e) (eyelid_h_l_next e)) e) self in
  let self :=
    on_eye_r (fun e => with_eyelid_h_r
                         (interpolate (eyelid_h_r e) (eyelid_h_r_next e)) e) self in
  self.

(** ** The render pass of [draw]

    The primitives handed to the canvas.  The only division of the source
    whose divisor is not a literal is the quotient by [eyelid_happy_h] of the
    happy eyelids: [None] stands for its ZeroDivisionError. *)
Inductive Fill : Type := white | black.

Inductive Primitive : Type :=
| rounded_rectangle (p0 p1 : Q * Q) (radius : Q) (fill : Fill)
| polygon (points : list (Q * Q)) (fill : Fill).

Definition py_div (a b : Q) : option Q :=
  if Qeq_bool b 0 then None else Some (a / b).

Definition draw_eye (e : Eye) : Primitive :=
  rounded_rectangle (x e, y e) (x e + w e, y e + h e) default_eye_radius white.

Definition draw_eyelid (e : Eye) : Primitive :=
  polygon [ (x e - 2, y e - 2);
            (x e + w e + 2, y e - 2);
            (x e + w e + 2, eyelid_h_r e - 1);
            (x e - 2, eyelid_h_l e - 1) ] black.

Definition draw_happy_eyelid (happy_h : Q) (e : Eye) : option Primitive :=
  match py_div (h e) happy_h with
  | Some q =>
      Some (rounded_rectangle (x e, y e + q + 2) (x e + w e, y e + h e + 2)
                              default_eye_radius black)
  | None => None
  end.

Definition render (self : Eyes) : option (list Primitive) :=
  match draw_happy_eyelid (eyelid_happy_h self) (eye_l self),
        draw_happy_eyelid (eyelid_happy_h self) (eye_r self) with
  | Some hl, Some hr =>
      Some [ draw_eye (eye_l self); draw_eye (eye_r self);
             draw_eyelid (eye_l self); draw_eyelid (eye_r self);
             hl; hr ]
  | _, _ => None
  end.

(** ** Executions

    The drawing thread runs the three update methods in turn, and the
    caller's thread can run a public method between any two of them.  An
    execution is a list of method calls; letting the update methods come in
    any order covers every interleaving of the two threads. *)
Inductive Call : Type :=
| call_open
| call_close
| call_set_mood (value : EyesMood)
| call_set_position (value : EyesPosition)
| call_set_idle (value : bool)
| call_update_eye_position
| call_update_eye_state (env : World)
| call_update_eyelids.

Definition exec (c : Call) (self : Eyes) : Eyes :=
  match c with
  | call_open => open self
  | call_close => close self
  | call_set_mood v => set_mood v self
  | call_set_position v => set_position v self
  | call_set_idle v => set_idle v self
  | call_update_eye_position => update_eye_position self
  | call_update_eye_state env => update_eye_state env self
  | call_update_eyelids => update_eyelids self
  end.

Fixpoint run (calls : list Call) (self : Eyes) : Eyes :=
  match calls with
  | [] => self
  | c :: rest => run rest (exec c self)
  end.

(** One iteration of the loop of [draw], up to the render pass. *)
Definition frame (env : World) : list Call :=
  [call_update_eye_position; call_update_eye_state env; call_update_eyelids].

Definition pow2 (n : nat) : Q := inject_Z (2 ^ Z.of_nat n).

(** ** The behaviour checks of [update_eye_state], in a chosen order *)

Inductive Check : Type := check_reopen | check_blink | check_idle.

Definition run_check (env : World) (c : Check) (self : Eyes) : Eyes :=
  match c with
  | check_reopen => reopen_after_blink self
  | check_blink => blink env self
  | check_idle => idle_movement env self
  end.

Fixpoint run_checks (env : World) (order : list Check) (self : Eyes) : Eyes :=
  match order with
  | [] => self
  | c :: rest => run_checks env rest (run_check env c self)
  end.

Definition source_order : list Check :=
  [check_reopen; check_blink; check_idle].

(** Whether the reopen check and the blink check both write [h_next]. *)
Definition reopen_fires (self : Eyes) : bool :=
  is_open self
  && (Qle_bool (h (eye_l self)) 1.1 || Qle_bool (h (eye_r self)) 1.1).

Definition blink_fires (env : World) (self : Eyes) : bool :=
  Qle_bool (blink_timer self) (time_blink env) && is_open self.

(** ** The specification's tables and steps

    These follow the words of the specification, to be compared with the
    methods above. *)

(** The eyelid table: (left-cutoff target, right-cutoff target) of the left
    eye from the mood and the eye's current [y] and [h]. *)
Definition spec_eyelid_table (m : EyesMood) (ey eh : Q) : Q * Q :=
  match m with
  | NEUTRAL | HAPPY => (ey, ey)
  | ANGRY => (ey + eh / 4, ey + eh / 2)
  | SAD => (ey + eh / 2, ey + eh / 4)
  | TIRED => (ey + eh / 1.2, ey + eh / 1.4)
  end.

Definition mirrored (p : Q * Q) : Q * Q := (snd p, fst p).

Definition spec_happy_target (m : EyesMood) : Q :=
  match m with HAPPY => 3 | _ => 1 end.

(** The four steps of the per-frame geometry advance. *)
Definition spec_ease_size (e : Eye) : Eye :=
  with_h (interpolate (h e) (h_next e))
         (with_w (interpolate (w e) (w_next e)) e).

Definition spec_recenter (e : Eye) : Eye :=
  with_y (y e + (default_eye_h - h e) / 2)
         (with_x (x e + (default_eye_w - w e) / 2) e).

Definition spec_ease_position (e : Eye) : Eye :=
  with_y (interpolate (y e) (y_next e))
         (with_x (interpolate (x e) (x_next e)) e).

Definition spec_step1 (self : Eyes) : Eyes :=
  on_eye_r spec_ease_size (on_eye_l spec_ease_size self).

Definition spec_step2 (self : Eyes) : Eyes :=
  on_eye_r spec_recenter (on_eye_l spec_recenter self).

Definition spec_step3 (self : Eyes) : Eyes :=
  on_eye_l spec_ease_position self.

Definition spec_step4 (self : Eyes) : Eyes :=
  let target_x := x_next (eye_l self) + w (eye_l self) + default_eye_gap in
  let target_y := y_next (eye_l self) in
  on_eye_r (fun e => spec_ease_position
                       (with_y_next target_y (with_x_next target_x e))) self.

Definition spec_geometry_advance (self : Eyes) : Eyes :=
  spec_step4 (spec_step3 (spec_step2 (spec_step1 self))).

(** The table of positions, for the default eye width and height. *)
Definition spec_max_x : Q :=
  screen_width - default_eye_w - default_eye_gap - default_eye_w.

Definition spec_max_y : Q := screen_height - default_eye_h.

Definition spec_position_table (value : EyesPosition) : Q * Q :=
  match value with
  | CENTER => (spec_max_x / 2, spec_max_y / 2)
  | TOP => (spec_max_x / 2, 0)
  | LEFT => (0, spec_max_y / 2)
  | BOTTOM => (spec_max_x / 2, spec_max_y)
  | RIGHT => (spec_max_x, spec_max_y / 2)
  | TOP_LEFT => (0, 0)
  | TOP_RIGHT => (spec_max_x, 0)
  | BOTTOM_LEFT => (0, spec_max_y)
  | BOTTOM_RIGHT => (spec_max_x, spec_max_y)
  end.

(** The left eye's position target, the pair that [set_position] writes. *)
Definition left_target (self : Eyes) : Q * Q :=
  (x_next (eye_l self), y_next (eye_l self)).

Definition Qeq_pair (p q : Q * Q) : Prop :=
  fst p == fst q /\ snd p == snd q.

(** The orders of the three checks that put the blink check before the
    reopen check. *)
Definition blink_first_orders : list (list Check) :=
  [ [check_blink; check_reopen; check_idle];
    [check_blink; check_idle; check_reopen];
    [check_idle; check_blink; check_reopen] ].

(** A frame at time 100 in which every draw is 0. *)
Definition world_at_100 : World :=
  {| time_blink := 100; time_blink_set := 100; draw_blink := 0;
     time_idle := 100; draw_x := 0; draw_y := 0;
     time_idle_set := 100; draw_idle := 0 |}.

(** ** What a method leaves unchanged *)

(** Two eyes that agree on every field but [h_next]. *)
Definition eye_same_but_h_next (a b : Eye) : Prop :=
  x a = x b /\ y a = y b /\ w a = w b /\ h a = h b
  /\ x_next a = x_next b /\ y_next a = y_next b /\ w_next a = w_next b
  /\ eyelid_h_l a = eyelid_h_l b /\ eyelid_h_r a = eyelid_h_r b
  /\ eyelid_h_l_next a = eyelid_h_l_next b
  /\ eyelid_h_r_next a = eyelid_h_r_next b.

(** Two eyes that agree on every field but [x_next], [y_next], [h_next]. *)
Definition eye_same_but_targets (a b : Eye) : Prop :=
  x a = x b /\ y a = y b /\ w a = w b /\ h a = h b
  /\ w_next a = w_next b
  /\ eyelid_h_l a = eyelid_h_l b /\ eyelid_h_r a = eyelid_h_r b
  /\ eyelid_h_l_next a = eyelid_h_l_next b
  /\ eyelid_h_r_next a = eyelid_h_r_next b.

(** Two engines that agree on every attribute but the eyes and [is_open]. *)
Definition engine_same_but_is_open (a b : Eyes) : Prop :=
  eyelid_happy_h a = eyelid_happy_h b
  /\ eyelid_happy_h_next a = eyelid_happy_h_next b
  /\ is_idle a = is_idle b /\ mood a = mood b
  /\ idle_timer a = idle_timer b /\ blink_timer a = blink_timer b.

(** ** Sample states *)

(** The initial engine with both eyes at [y = 10], [h = 36] and a mood. *)
Definition eyes_at_10_36 (m : EyesMood) : Eyes :=
  let place := fun e => with_h 36 (with_y 10 e) in
  with_mood m (on_eye_r place (on_eye_l place init)).

(** ** Invariants of executions *)

(** Both widths and both width targets are 36. *)
Definition widths_default (s : Eyes) : Prop :=
  w (eye_l s) == default_eye_w /\ w (eye_r s) == default_eye_w
  /\ w_next (eye_l s) == default_eye_w /\ w_next (eye_r s) == default_eye_w.

(** Both heights and both height targets lie in [1, 36]. *)
Definition heights_bounded (s : Eyes) : Prop :=
  (1 <= h (eye_l s) <= default_eye_h /\ 1 <= h_next (eye_l s) <= default_eye_h)
  /\ (1 <= h (eye_r s) <= default_eye_h
      /\ 1 <= h_next (eye_r s) <= default_eye_h).

Definition happy_bounded (s : Eyes) : Prop :=
  1 <= eyelid_happy_h s <= 3.

Definition engine_invariant (s : Eyes) : Prop :=
  widths_default s /\ heights_bounded s /\ happy_bounded s.

(** ** Classes of calls, frames and further invariants *)

(** The calls that write targets, flags and timers only: the public methods
    and [update_eye_state]. *)
Definition writes_no_drawn_field (c : Call) : bool :=
  match c with
  | call_update_eye_position | call_update_eyelids => false
  | _ => true
  end.

(** The attributes that the render pass of [draw] reads. *)
Definition drawn_fields (s : Eyes) : list Q :=
  [ x (eye_l s); y (eye_l s); w (eye_l s); h (eye_l s);
    eyelid_h_l (eye_l s); eyelid_h_r (eye_l s);
    x (eye_r s); y (eye_r s); w (eye_r s); h (eye_r s);
    eyelid_h_l (eye_r s); eyelid_h_r (eye_r s);
    eyelid_happy_h s ].

(** The attributes that the eyelids and the mood do not take part in. *)
Definition geometry (s : Eyes) : list Q * list bool :=
  ( [ x (eye_l s); y (eye_l s); w (eye_l s); h (eye_l s);
      x_next (eye_l s); y_next (eye_l s); w_next (eye_l s); h_next (eye_l s);
      x (eye_r s); y (eye_r s); w (eye_r s); h (eye_r s);
      x_next (eye_r s); y_next (eye_r s); w_next (eye_r s); h_next (eye_r s);
      idle_timer s; blink_timer s ],
    [ is_open s; is_idle s ] ).

(** A call with the value of [set_mood] forgotten. *)
Definition erase_mood (c : Call) : Call :=
  match c with
  | call_set_mood _ => call_set_mood NEUTRAL
  | _ => c
  end.

(** [random()] returns a value of the unit interval. *)
Definition unit_draw (d : Q) : Prop := 0 <= d <= 1.

Definition unit_draws (env : World) : Prop :=
  unit_draw (draw_blink env) /\ unit_draw (draw_x env)
  /\ unit_draw (draw_y env) /\ unit_draw (draw_idle env).

Definition call_unit_draws (c : Call) : Prop :=
  match c with
  | call_update_eye_state env => unit_draws env
  | _ => True
  end.

(** Whether the idle check of [update_eye_state] fires. *)
Definition idle_fires (env : World) (self : Eyes) : bool :=
  is_idle self && is_open self && Qle_bool (idle_timer self) (time_idle env).

(** A call other than [set_idle(True)]. *)
Definition leaves_idle_off (c : Call) : Prop := c <> call_set_idle true.

(** The left eye's position target is one of the nine entries of the table
    of [set_position] for the default widths. *)
Definition named_target (s : Eyes) : Prop :=
  exists value : EyesPosition,
    Qeq_pair (left_target s) (positions 46 28 value).

(** The iterations of the loop of [draw], one per reading of the world. *)
Definition frames (envs : list World) : list Call := flat_map frame envs.

(** The two eyes are level, of the same height and 46 apart, and their
    eyelids mirror each other. *)
Definition lockstep (s : Eyes) : Prop :=
  x (eye_r s) == x (eye_l s) + default_eye_w + default_eye_gap
  /\ y (eye_r s) == y (eye_l s)
  /\ h (eye_r s) == h (eye_l s)
  /\ h_next (eye_r s) == h_next (eye_l s)
  /\ eyelid_h_l (eye_r s) == eyelid_h_r (eye_l s)
  /\ eyelid_h_r (eye_r s) == eyelid_h_l (eye_l s)
  /\ eyelid_h_l_next (eye_r s) == eyelid_h_r_next (eye_l s)
  /\ eyelid_h_r_next (eye_r s) == eyelid_h_l_next (eye_l s).

(** The left eye's position and its target lie in the range of
    [set_position]. *)
Definition position_bounded (s : Eyes) : Prop :=
  (0 <= x_next (eye_l s) <= 46 /\ 0 <= y_next (eye_l s) <= 28)
  /\ (0 <= x (eye_l s) <= 46 /\ 0 <= y (eye_l s) <= 45.5).

(** The height targets are the two values the code writes. *)
Definition h_next_written (s : Eyes) : Prop :=
  (h_next (eye_l s) = 1 \/ h_next (eye_l s) = default_eye_h)
  /\ (h_next (eye_r s) = 1 \/ h_next (eye_r s) = default_eye_h).

(** A reading of the world in which the blink check cannot fire. *)
Definition before_blink (s : Eyes) (env : World) : Prop :=
  time_blink env < blink_timer s.

(** The progress of one eye's height over the frames that follow a blink:
    the target is back at its open value, or it is still 1 and the height
    has come down by a factor two per frame without reaching 1.1. *)
Definition closing (k : nat) (hc hn : Q) : Prop :=
  hn = default_eye_h
  \/ (hn = 1 /\ (hc - 1) * pow2 k <= 35 /\ (k = 0%nat \/ 1.1 < hc)).

(** ** Double precision

    The numbers of the source are binary64 floats.  The expressions of the
    source whose value depends on the rounding are given here on primitive
    floats, to be evaluated where exact arithmetic and the code part ways. *)


(** [random.uniform(a, b)], which is [a + (b - a) * random()]. *)
Definition uniform_double (a b draw : float) : float :=
  (a + (b - a) * draw)%float.

(** The right eye's horizontal target (line 178). *)
Definition right_x_next_double (left_x_next left_w gap : float) : float :=
  (left_x_next + left_w + gap)%float.



(** The horizontal target written by an idle wander (line 197) whose draw
    is 0.9, with [get_max_x_limit() = 46]. *)
Definition wander_x_double : float := uniform_double 0 46 0.9.

(** ** Proof automation *)

Ltac unfold_consts :=
  unfold interpolate, uniform, get_max_x_limit, get_max_y_limit,
    init_eye_x, init_eye_y, screen_width, screen_height,
    default_eye_w, default_eye_h, default_eye_gap, Qdiv in *.

Ltac literals :=
  change (/ 2) with (1 # 2) in *;
  change (/ 4) with (1 # 4) in *;
  change (/ 1.2) with (10 # 12) in *;
  change (/ 1.4) with (10 # 14) in *.

Ltac qsolve := unfold_consts; literals; lra.

(** Unfolds the methods and the record operations, and nothing of [Q]. *)
Ltac run_methods :=
  cbv beta iota zeta delta
    [ run exec frame run_checks run_check source_order
      open close set_mood set_idle set_position positions
      get_max_x_limit get_max_y_limit
      update_eye_position update_eye_state update_eyelids
      reopen_after_blink blink idle_movement reopen_fires blink_fires
      render draw_happy_eyelid py_div
      spec_geometry_advance spec_step1 spec_step2 spec_step3 spec_step4
      spec_ease_size spec_recenter spec_ease_position
      spec_eyelid_table spec_happy_target mirrored left_target
      blink_first_orders EyesMood_eqb negb orb andb fst snd init
      on_eye_l on_eye_r
      with_x with_y with_w with_h with_x_next with_y_next with_h_next
      with_eyelid_h_l with_eyelid_h_r
      with_eyelid_h_l_next with_eyelid_h_r_next
      with_eyelid_happy_h with_eyelid_happy_h_next
      with_is_open with_is_idle with_mood with_idle_timer with_blink_timer
      x y w h x_next y_next w_next h_next
      eyelid_h_l eyelid_h_r eyelid_h_l_next eyelid_h_r_next
      eye_l eye_r eyelid_happy_h eyelid_happy_h_next
      is_open is_idle mood idle_timer blink_timer ] in *.

Ltac destruct_state :=
  repeat match goal with
         | s : Eyes |- _ => destruct s
         | e : Eye |- _ => destruct e
         end.

(** Case analysis on the conditions of the code, innermost first, so that it
    follows the order in which the code evaluates them; a condition that was
    already decided is rewritten with its value. *)
Ltac split_ifs :=
  repeat (first
            [ match goal with
              | H : ?b = _ |- context [if ?b then _ else _] => rewrite H
              end
            | match goal with
              | |- context [if ?b then _ else _] =>
                  lazymatch b with
                  | context [if _ then _ else _] => fail
                  | true => fail
                  | false => fail
                  | _ => first [is_var b; destruct b | destruct b eqn:?]
                  end
              end ];
          cbv beta iota).

Ltac method_cases :=
  destruct_state;
  try match goal with
      | m : EyesMood |- context [update_eyelids] => destruct m
      end;
  try match goal with
      | p : EyesPosition |- _ => destruct p
      end;
  run_methods; split_ifs.

Ltac invariant_cases :=
  unfold engine_invariant, widths_default, heights_bounded, happy_bounded;
  intros Hs; method_cases; qsolve.

(** Turns the decided comparisons of the code into inequalities. *)
Ltac reflect_conditions :=
  repeat match goal with
         | H : Qle_bool _ _ = true |- _ => apply Qle_bool_iff in H
         | H : Qle_bool ?a ?b = false |- _ =>
             let Hle := fresh "Hle" in
             assert (b < a)
               by (apply Qnot_le_lt; intros Hle;
                   apply Qle_bool_iff in Hle; congruence);
             clear H
         end.

(** Two states with the same geometry go through the same branches. *)
Ltac same_geometry :=
  unfold geometry; intros Hg; destruct_state;
  cbn [eye_l eye_r x y w h x_next y_next w_next h_next
       idle_timer blink_timer is_open is_idle] in Hg;
  injection Hg; intros; subst;
  try match goal with
      | p : EyesPosition |- _ => destruct p
      end;
  run_methods; split_ifs; try reflexivity; congruence.

(** ** Arithmetic of the easing law *)


Lemma interpolate_no_farther (c t : Q) :
  Qabs (interpolate c t - t) <= Qabs (c - t).
Proof.
  unfold interpolate, Qdiv. literals.
  apply Qabs_case; intros H1; apply Qabs_case; intros H2; lra.
Qed.

Lemma pow2_S (n : nat) : pow2 (S n) == 2 * pow2 n.
Proof.
  unfold pow2. rewrite Nat2Z.inj_succ, Z.pow_succ_r by lia.
  rewrite inject_Z_mult. reflexivity.
Qed.

Lemma pow2_pos (n : nat) : 0 < pow2 n.
Proof.
  unfold pow2. change 0 with (inject_Z 0). rewrite <- Zlt_Qlt.
  apply Z.pow_pos_nonneg; lia.
Qed.

Lemma pow2_mono (n m : nat) : (n <= m)%nat -> pow2 n <= pow2 m.
Proof.
  intros Hle. unfold pow2. rewrite <- Zle_Qle.
  apply Z.pow_le_mono_r; lia.
Qed.

(** ** The easing law *)



(** ** Order of the behaviour checks *)

Lemma source_order_is_update_eye_state (env : World) (s : Eyes) :
  run_checks env source_order s = update_eye_state env s.
Proof. reflexivity. Qed.

(** The idle check touches nothing the other two checks read or write. *)
Lemma idle_commutes_reopen (env : World) (s : Eyes) :
  idle_movement env (reopen_after_blink s)
  = reopen_after_blink (idle_movement env s).
Proof.
  destruct_state. run_methods. split_ifs; try reflexivity; congruence.
Qed.

Lemma idle_commutes_blink (env : World) (s : Eyes) :
  idle_movement env (blink env s) = blink env (idle_movement env s).
Proof.
  destruct_state. run_methods. split_ifs; try reflexivity; congruence.
Qed.

Lemma blink_reopen_when_not_both (env : World) (s : Eyes) :
  reopen_fires s && blink_fires env s = false ->
  reopen_after_blink (blink env s) = blink env (reopen_after_blink s).
Proof.
  destruct_state. run_methods.
  split_ifs; intros Hnot; try reflexivity; try congruence; discriminate Hnot.
Qed.

Lemma idle_keeps_h_next (env : World) (s : Eyes) :
  h_next (eye_l (idle_movement env s)) = h_next (eye_l s)
  /\ h_next (eye_r (idle_movement env s)) = h_next (eye_r s).
Proof. destruct_state. run_methods. split_ifs; split; reflexivity. Qed.

Lemma blink_reopen_h_next_when_both (env : World) (s : Eyes) :
  reopen_fires s && blink_fires env s = true ->
  h_next (eye_l (reopen_after_blink (blink env s)))
  <> h_next (eye_l (blink env (reopen_after_blink s)))
  \/ h_next (eye_r (reopen_after_blink (blink env s)))
     <> h_next (eye_r (blink env (reopen_after_blink s))).
Proof.
  destruct_state. run_methods.
  split_ifs; intros Hboth; try discriminate Hboth; try congruence;
    ((left; discriminate) || (right; discriminate)).
Qed.

(** Every order that puts the blink check first amounts to blink, reopen,
    idle. *)
Lemma blink_first_orders_agree (env : World) (s : Eyes) (order : list Check) :
  In order blink_first_orders ->
  run_checks env order s
  = idle_movement env (reopen_after_blink (blink env s)).
Proof.
  intros [<- | [<- | [<- | []]]]; cbn [run_checks run_check].
  - reflexivity.
  - symmetry. apply idle_commutes_reopen.
  - rewrite <- idle_commutes_blink. symmetry. apply idle_commutes_reopen.
Qed.

Lemma blink_first_order_iff (env : World) (s : Eyes) (order : list Check) :
  In order blink_first_orders ->
  (run_checks env order s = update_eye_state env s
   <-> reopen_fires s && blink_fires env s = false).
Proof.
  intros Hin. rewrite (blink_first_orders_agree env s order Hin).
  unfold update_eye_state. split.
  - intros Heq.
    destruct (reopen_fires s && blink_fires env s) eqn:Hboth; [| reflexivity].
    exfalso.
    destruct (idle_keeps_h_next env (reopen_after_blink (blink env s)))
      as [Hl1 Hr1].
    destruct (idle_keeps_h_next env (blink env (reopen_after_blink s)))
      as [Hl2 Hr2].
    destruct (blink_reopen_h_next_when_both env s Hboth) as [Hne | Hne];
      apply Hne; congruence.
  - intros Hnot. f_equal. apply blink_reopen_when_not_both, Hnot.
Qed.

(** C2 (amended): the idle-wander check commutes with the other two checks,
    so the two other orders that keep the reopen check before the blink check
    produce the same state as the order of the code; an order that puts the
    blink check first produces the same state exactly when the reopen check
    and the blink check do not both fire in that frame. *)
Theorem checks_order (env : World) (s : Eyes) :
  run_checks env [check_reopen; check_idle; check_blink] s
  = update_eye_state env s
  /\ run_checks env [check_idle; check_reopen; check_blink] s
     = update_eye_state env s
  /\ (forall order : list Check,
        In order blink_first_orders ->
        (run_checks env order s = update_eye_state env s
         <-> reopen_fires s && blink_fires env s = false)).
Proof.
  split; [| split].
  - unfold update_eye_state. cbn [run_checks run_check].
    symmetry. apply idle_commutes_blink.
  - unfold update_eye_state. cbn [run_checks run_check].
    rewrite <- idle_commutes_reopen. symmetry. apply idle_commutes_blink.
  - intros order. apply blink_first_order_iff.
Qed.

Lemma checks_order_witness :
  In [check_blink; check_reopen; check_idle] blink_first_orders
  /\ (run_checks world_at_100 [check_blink; check_reopen; check_idle] init
      = update_eye_state world_at_100 init
      <-> reopen_fires init && blink_fires world_at_100 init = false).
Proof.
  assert (Hin : In [check_blink; check_reopen; check_idle] blink_first_orders)
    by (simpl; auto).
  split; [exact Hin |].
  destruct (checks_order world_at_100 init) as (_ & _ & Horders).
  exact (Horders _ Hin).
Defined.

(** C2 as stated fails right after [open()] on the initial state: both eyes
    have height 1 and the blink timer has expired, so the code leaves
    [h_next] at 1 while blink-then-reopen leaves it at 36. *)
Lemma blink_before_reopen_differs :
  run_checks world_at_100 [check_blink; check_reopen; check_idle] (open init)
  <> update_eye_state world_at_100 (open init).
Proof.
  intros Heq.
  apply (f_equal (fun s => h_next (eye_l s))) in Heq.
  vm_compute in Heq. discriminate Heq.
Qed.

(** ** Executions preserve the invariants *)

Lemma run_app (calls1 calls2 : list Call) (s : Eyes) :
  run (calls1 ++ calls2) s = run calls2 (run calls1 s).
Proof.
  revert s. induction calls1 as [| c rest IH]; intros s; [reflexivity |].
  cbn [run app]. apply IH.
Qed.

Section Invariant.

Variable P : Eyes -> Prop.
Hypothesis P_init : P init.
Hypothesis P_exec : forall (c : Call) (s : Eyes), P s -> P (exec c s).

Lemma run_preserves (calls : list Call) (s : Eyes) : P s -> P (run calls s).
Proof.
  revert s. induction calls as [| c rest IH]; intros s Hs; [exact Hs |].
  cbn [run]. apply IH, P_exec, Hs.
Qed.

Lemma run_invariant (calls : list Call) : P (run calls init).
Proof. apply run_preserves, P_init. Qed.

End Invariant.

Lemma invariant_init : engine_invariant init.
Proof.
  unfold engine_invariant, widths_default, heights_bounded, happy_bounded.
  run_methods. qsolve.
Qed.

Lemma invariant_reopen (s : Eyes) :
  engine_invariant s -> engine_invariant (reopen_after_blink s).
Proof. invariant_cases. Qed.

Lemma invariant_blink (env : World) (s : Eyes) :
  engine_invariant s -> engine_invariant (blink env s).
Proof. invariant_cases. Qed.

Lemma invariant_idle (env : World) (s : Eyes) :
  engine_invariant s -> engine_invariant (idle_movement env s).
Proof. invariant_cases. Qed.

Lemma invariant_exec (c : Call) (s : Eyes) :
  engine_invariant s -> engine_invariant (exec c s).
Proof.
  destruct c; cbn [exec].
  7: { intros Hs. unfold update_eye_state.
       apply invariant_idle, invariant_blink, invariant_reopen, Hs. }
  all: invariant_cases.
Qed.

Lemma invariant_run (calls : list Call) : engine_invariant (run calls init).
Proof. apply run_invariant; [apply invariant_init | apply invariant_exec]. Qed.

(** ** Invariants of every execution *)

(** C10: in every state reached by any sequence of public operations and
    update methods, both eyes' [w] and [w_next] equal [default_eye_w = 36]
    (no method writes a width target, and easing 36 toward 36 gives 36), and
    so [get_max_x_limit] returns 46. *)
Theorem widths_stay_default (calls : list Call) :
  w (eye_l (run calls init)) == 36
  /\ w (eye_r (run calls init)) == 36
  /\ w_next (eye_l (run calls init)) == 36
  /\ w_next (eye_r (run calls init)) == 36
  /\ default_eye_w == 36
  /\ get_max_x_limit (run calls init) == 46.
Proof.
  destruct (invariant_run calls) as [(Hwl & Hwr & Hnl & Hnr) _].
  revert Hwl Hwr Hnl Hnr. generalize (run calls init). intros s.
  destruct_state. run_methods. intros. repeat split; qsolve.
Qed.

(** C5: in every state reached by any sequence of public operations and
    update methods, and for both eyes, [1 <= h <= default_eye_h = 36]. *)
Theorem height_bounds (calls : list Call) :
  1 <= h (eye_l (run calls init)) <= default_eye_h
  /\ 1 <= h (eye_r (run calls init)) <= default_eye_h
  /\ default_eye_h == 36.
Proof.
  destruct (invariant_run calls) as (_ & ((Hl & _) & (Hr & _)) & _).
  split; [exact Hl | split; [exact Hr | reflexivity]].
Qed.

Lemma py_div_defined (a b : Q) : ~ b == 0 -> py_div a b = Some (a / b).
Proof.
  intros Hb. unfold py_div.
  destruct (Qeq_bool b 0) eqn:Hz; [| reflexivity].
  exfalso. apply Hb, Qeq_bool_iff, Hz.
Qed.

Lemma render_defined (s : Eyes) :
  ~ eyelid_happy_h s == 0 -> exists frame, render s = Some frame.
Proof.
  intros Hb. unfold render, draw_happy_eyelid.
  rewrite !py_div_defined by exact Hb. eexists. reflexivity.
Qed.

Lemma update_eyelids_happy (s : Eyes) :
  eyelid_happy_h_next (update_eyelids s) = spec_happy_target (mood s)
  /\ eyelid_happy_h (update_eyelids s)
     = interpolate (eyelid_happy_h s) (spec_happy_target (mood s)).
Proof.
  destruct s as [el er hh hn io ii m it bt].
  destruct m; split; reflexivity.
Qed.

(** C9: [eyelid_happy_h] starts at 1, each call of [update_eyelids] eases it
    toward a target that is 3 when the mood is HAPPY and 1 otherwise, and in
    every reached state it lies in [1, 3]; so it is never zero and the
    render pass, with its quotient [h / eyelid_happy_h], produces a frame. *)
Theorem happy_eyelid_bounds (calls : list Call) (s : Eyes) :
  eyelid_happy_h init = 1
  /\ eyelid_happy_h_next (update_eyelids s) = spec_happy_target (mood s)
  /\ eyelid_happy_h (update_eyelids s)
     = interpolate (eyelid_happy_h s) (spec_happy_target (mood s))
  /\ spec_happy_target HAPPY = 3
  /\ (forall m : EyesMood, m <> HAPPY -> spec_happy_target m = 1)
  /\ 1 <= eyelid_happy_h (run calls init) <= 3
  /\ ~ eyelid_happy_h (run calls init) == 0
  /\ exists frame, render (run calls init) = Some frame.
Proof.
  destruct (invariant_run calls) as (_ & _ & Hh). unfold happy_bounded in Hh.
  assert (Hnz : ~ eyelid_happy_h (run calls init) == 0) by (intros Hz; lra).
  destruct (update_eyelids_happy s) as [Hn Hc].
  repeat split; try assumption; try reflexivity; try lra.
  - intros m Hm. destruct m; try reflexivity. contradiction.
  - apply render_defined, Hnz.
Qed.

Lemma happy_eyelid_bounds_witness :
  NEUTRAL <> HAPPY /\ spec_happy_target NEUTRAL = 1.
Proof.
  assert (Hne : NEUTRAL <> HAPPY) by discriminate.
  destruct (happy_eyelid_bounds [] init) as (_ & _ & _ & _ & Hother & _).
  split; [exact Hne | exact (Hother NEUTRAL Hne)].
Defined.

Lemma widths_invariant_max_x (calls : list Call) :
  get_max_x_limit (run calls init) == 46
  /\ get_max_y_limit (run calls init) == 28.
Proof.
  destruct (invariant_run calls) as [(Hwl & Hwr & _) _].
  revert Hwl Hwr. generalize (run calls init). intros s.
  destruct_state. run_methods. intros. split; qsolve.
Qed.

(** ** Position targets *)

Lemma set_position_left_target (s : Eyes) (value : EyesPosition) :
  left_target (set_position value s)
  = positions (get_max_x_limit s) (get_max_y_limit s) value.
Proof. destruct_state. destruct value; reflexivity. Qed.

(** C3: in every state reached by any sequence of public operations and
    update methods, and for every position, [set_position] writes the left
    eye's [(x_next, y_next)] to the entry of the table computed with
    [max_x = screen_w - default_eye_w - default_eye_gap - default_eye_w = 46]
    and [max_y = screen_h - default_eye_h = 28]; the entry written does not
    depend on the eyes' current heights. *)
Theorem set_position_target
  (calls : list Call) (value : EyesPosition) (hl hr : Q) :
  Qeq_pair (left_target (set_position value (run calls init)))
           (spec_position_table value)
  /\ spec_max_x == 46
  /\ spec_max_y == 28
  /\ left_target
       (set_position value
          (on_eye_r (with_h hr) (on_eye_l (with_h hl) (run calls init))))
     = left_target (set_position value (run calls init)).
Proof.
  split; [| split; [reflexivity | split; [reflexivity |]]].
  - rewrite set_position_left_target.
    destruct (widths_invariant_max_x calls) as [Hx Hy].
    revert Hx Hy. generalize (get_max_x_limit (run calls init)).
    generalize (get_max_y_limit (run calls init)). intros my mx Hx Hy.
    unfold Qeq_pair.
    destruct value; cbn [positions spec_position_table fst snd]; split;
      rewrite ?Hx, ?Hy; reflexivity.
  - rewrite !set_position_left_target.
    generalize (run calls init). intros s. destruct_state. reflexivity.
Qed.

(** ** Eyelid targets *)

(** C6 (amended): [update_eyelids] sets the eyelid cutoff targets from the
    mood and each eye's current [y] and [h] as the table says, the right eye
    mirrored; with [y = 10] and [h = 36] the left eye's targets are
    (19, 28) under ANGRY, (28, 19) under SAD, (40, 10 + 36/1.4) under TIRED
    and (10, 10) under NEUTRAL and HAPPY. *)
Theorem eyelid_targets (s : Eyes) :
  (eyelid_h_l_next (eye_l (update_eyelids s)),
   eyelid_h_r_next (eye_l (update_eyelids s)))
  = spec_eyelid_table (mood s) (y (eye_l s)) (h (eye_l s))
  /\ (eyelid_h_l_next (eye_r (update_eyelids s)),
      eyelid_h_r_next (eye_r (update_eyelids s)))
     = mirrored (spec_eyelid_table (mood s) (y (eye_r s)) (h (eye_r s)))
  /\ Qeq_pair (spec_eyelid_table ANGRY 10 36) (19, 28)
  /\ Qeq_pair (spec_eyelid_table SAD 10 36) (28, 19)
  /\ Qeq_pair (spec_eyelid_table TIRED 10 36) (40, 10 + 36 / 1.4)
  /\ Qeq_pair (spec_eyelid_table NEUTRAL 10 36) (10, 10)
  /\ Qeq_pair (spec_eyelid_table HAPPY 10 36) (10, 10)
  /\ eyelid_h_l_next (eye_l (update_eyelids (eyes_at_10_36 ANGRY))) == 19
  /\ eyelid_h_r_next (eye_l (update_eyelids (eyes_at_10_36 ANGRY))) == 28
  /\ eyelid_h_l_next (eye_l (update_eyelids (eyes_at_10_36 SAD))) == 28
  /\ eyelid_h_r_next (eye_l (update_eyelids (eyes_at_10_36 SAD))) == 19.
Proof.
  split; [| split].
  - destruct s as [el er hh hn io ii m it bt]. destruct m; reflexivity.
  - destruct s as [el er hh hn io ii m it bt]. destruct m; reflexivity.
  - unfold Qeq_pair. repeat split; reflexivity.
Qed.

(** C6 as stated fails under ANGRY with [y = 10], [h = 36]: the left eye's
    left-cutoff target is [10 + 36 / 4 = 19], not 17.5. *)
Lemma angry_left_cutoff_is_not_17_5 :
  ~ eyelid_h_l_next (eye_l (update_eyelids (eyes_at_10_36 ANGRY))) == 17.5.
Proof. intros H. vm_compute in H. discriminate H. Qed.

(** ** The geometry advance *)

(** C7: [update_eye_position] is the four steps in this order: ease [w] and
    [h] of both eyes; shift [x] by [(default_eye_w - w) / 2] and [y] by
    [(default_eye_h - h) / 2] with the just-eased sizes; ease the left eye's
    [x], [y] toward its targets; recompute the right eye's targets from the
    left eye's target, the left eye's just-eased width and the gap, and ease
    the right eye's [x], [y] toward them. *)
Theorem geometry_advance_order (s : Eyes) :
  update_eye_position s = spec_geometry_advance s
  /\ w (eye_l (update_eye_position s))
     = interpolate (w (eye_l s)) (w_next (eye_l s))
  /\ h (eye_l (update_eye_position s))
     = interpolate (h (eye_l s)) (h_next (eye_l s))
  /\ w (eye_r (update_eye_position s))
     = interpolate (w (eye_r s)) (w_next (eye_r s))
  /\ h (eye_r (update_eye_position s))
     = interpolate (h (eye_r s)) (h_next (eye_r s))
  /\ x (eye_l (update_eye_position s))
     = interpolate
         (x (eye_l s)
          + (default_eye_w - w (eye_l (update_eye_position s))) / 2)
         (x_next (eye_l s))
  /\ y (eye_l (update_eye_position s))
     = interpolate
         (y (eye_l s)
          + (default_eye_h - h (eye_l (update_eye_position s))) / 2)
         (y_next (eye_l s))
  /\ x_next (eye_l (update_eye_position s)) = x_next (eye_l s)
  /\ y_next (eye_l (update_eye_position s)) = y_next (eye_l s)
  /\ x_next (eye_r (update_eye_position s))
     = x_next (eye_l s) + w (eye_l (update_eye_position s))
       + default_eye_gap
  /\ y_next (eye_r (update_eye_position s)) = y_next (eye_l s)
  /\ x (eye_r (update_eye_position s))
     = interpolate
         (x (eye_r s)
          + (default_eye_w - w (eye_r (update_eye_position s))) / 2)
         (x_next (eye_r (update_eye_position s)))
  /\ y (eye_r (update_eye_position s))
     = interpolate
         (y (eye_r s)
          + (default_eye_h - h (eye_r (update_eye_position s))) / 2)
         (y_next (eye_r (update_eye_position s))).
Proof. destruct_state. run_methods. repeat split; reflexivity. Qed.

(** ** Opening and closing *)

(** C8: [open] sets both eyes' [h_next] to [default_eye_h] and [is_open] to
    true and changes nothing else; [close] sets both eyes' [h_next] to 1 and
    [is_open] to false, writes the left eye's position target and changes
    nothing else; in every state reached by any sequence of public
    operations and update methods the target that [close] writes is the
    CENTER entry of the table of positions, (23, 14). *)
Theorem open_close_effect (s : Eyes) (calls : list Call) :
  (h_next (eye_l (open s)) = default_eye_h
   /\ h_next (eye_r (open s)) = default_eye_h
   /\ is_open (open s) = true
   /\ eye_same_but_h_next (eye_l s) (eye_l (open s))
   /\ eye_same_but_h_next (eye_r s) (eye_r (open s))
   /\ engine_same_but_is_open s (open s))
  /\ (h_next (eye_l (close s)) = 1
      /\ h_next (eye_r (close s)) = 1
      /\ is_open (close s) = false
      /\ eye_same_but_targets (eye_l s) (eye_l (close s))
      /\ eye_same_but_h_next (eye_r s) (eye_r (close s))
      /\ engine_same_but_is_open s (close s))
  /\ Qeq_pair (left_target (close (run calls init)))
              (spec_position_table CENTER)
  /\ Qeq_pair (spec_position_table CENTER) (23, 14).
Proof.
  split; [| split; [| split]].
  - destruct_state.
    unfold eye_same_but_h_next, engine_same_but_is_open.
    run_methods. repeat split; reflexivity.
  - destruct_state.
    unfold eye_same_but_h_next, eye_same_but_targets, engine_same_but_is_open.
    run_methods. repeat split; reflexivity.
  - destruct (invariant_run calls) as [(Hwl & Hwr & _) _].
    revert Hwl Hwr. generalize (run calls init). intros s0.
    unfold Qeq_pair, spec_position_table, spec_max_x, spec_max_y.
    destruct_state. run_methods. intros. split; qsolve.
  - unfold Qeq_pair. split; reflexivity.
Qed.

(** ** What the render pass reads, and which calls leave it alone *)

Lemma render_reads_drawn_fields (a b : Eyes) :
  drawn_fields a = drawn_fields b -> render a = render b.
Proof.
  unfold drawn_fields. intros H.
  injection H as Hxl Hyl Hwl Hhl Hll Hlr Hxr Hyr Hwr Hhr Hrl Hrr Hhh.
  unfold render, draw_happy_eyelid, draw_eye, draw_eyelid.
  rewrite Hxl, Hyl, Hwl, Hhl, Hll, Hlr, Hxr, Hyr, Hwr, Hhr, Hrl, Hrr, Hhh.
  reflexivity.
Qed.

Lemma drawn_fields_reopen (s : Eyes) :
  drawn_fields (reopen_after_blink s) = drawn_fields s.
Proof. unfold drawn_fields. method_cases; reflexivity. Qed.

Lemma drawn_fields_blink (env : World) (s : Eyes) :
  drawn_fields (blink env s) = drawn_fields s.
Proof. unfold drawn_fields. method_cases; reflexivity. Qed.

Lemma drawn_fields_idle (env : World) (s : Eyes) :
  drawn_fields (idle_movement env s) = drawn_fields s.
Proof. unfold drawn_fields. method_cases; reflexivity. Qed.

Lemma drawn_fields_exec (c : Call) (s : Eyes) :
  writes_no_drawn_field c = true -> drawn_fields (exec c s) = drawn_fields s.
Proof.
  intros Hc.
  destruct c; try discriminate Hc; cbn [exec].
  6: { unfold update_eye_state.
       rewrite drawn_fields_idle, drawn_fields_blink, drawn_fields_reopen.
       reflexivity. }
  all: unfold drawn_fields; method_cases; reflexivity.
Qed.

(** X1: the public methods and [update_eye_state] write targets, flags and
    timers only: none of the attributes that the render pass reads changes,
    so the picture drawn next is the same; only [update_eye_position] and
    [update_eyelids] move what is drawn. *)
Theorem targets_do_not_move_picture (c : Call) (s : Eyes) :
  writes_no_drawn_field c = true ->
  drawn_fields (exec c s) = drawn_fields s /\ render (exec c s) = render s.
Proof.
  intros Hc. pose proof (drawn_fields_exec c s Hc) as Hf.
  split; [exact Hf | apply render_reads_drawn_fields, Hf].
Qed.

Lemma targets_do_not_move_picture_witness :
  writes_no_drawn_field call_close = true
  /\ render (exec call_close (open init)) = render (open init).
Proof.
  split; [reflexivity |].
  apply (targets_do_not_move_picture call_close (open init)). reflexivity.
Defined.

(** ** Closed eyes *)

Lemma update_eye_state_closed (env : World) (s : Eyes) :
  is_open s = false -> update_eye_state env s = s.
Proof.
  destruct s as [el er hh hn io ii m it bt]. cbn [is_open]. intros ->.
  run_methods. split_ifs; reflexivity.
Qed.

Lemma update_eye_position_flags (s : Eyes) :
  is_open (update_eye_position s) = is_open s
  /\ is_idle (update_eye_position s) = is_idle s
  /\ mood (update_eye_position s) = mood s
  /\ idle_timer (update_eye_position s) = idle_timer s
  /\ blink_timer (update_eye_position s) = blink_timer s.
Proof. destruct_state. run_methods. repeat split; reflexivity. Qed.

(** X2: while the eyes are closed, [update_eye_state] changes nothing,
    whatever the clock and the random generator return: closed eyes neither
    blink nor wander, and a frame of the drawing loop is
    [update_eye_position] followed by [update_eyelids]. *)
Theorem closed_eyes_ignore_world (env : World) (s : Eyes) :
  is_open s = false ->
  update_eye_state env s = s
  /\ run (frame env) s = update_eyelids (update_eye_position s).
Proof.
  intros Hc. split; [apply update_eye_state_closed, Hc |].
  cbn [run frame exec]. rewrite update_eye_state_closed; [reflexivity |].
  destruct (update_eye_position_flags s) as [-> _]. exact Hc.
Qed.

Lemma closed_eyes_ignore_world_witness :
  is_open (close (open init)) = false
  /\ update_eye_state world_at_100 (close (open init)) = close (open init).
Proof.
  split; [reflexivity |].
  apply (closed_eyes_ignore_world world_at_100 (close (open init))).
  reflexivity.
Defined.

(** ** How the public methods compose *)

(** X4: a later call overrides an earlier one: [set_position], [set_mood],
    [open] and [close] keep no trace of an earlier call of the same method;
    [close] and [set_idle(False)] also override an earlier [set_position]
    (both recentre), and [close] an earlier [open]; [open] and
    [set_position] do not interfere with each other. *)
Theorem later_call_overrides
  (s : Eyes) (v1 v2 : EyesPosition) (m1 m2 : EyesMood) (b : bool) :
  set_position v2 (set_position v1 s) = set_position v2 s
  /\ set_mood m2 (set_mood m1 s) = set_mood m2 s
  /\ open (open s) = open s
  /\ close (close s) = close s
  /\ close (open s) = close s
  /\ close (set_position v1 s) = close s
  /\ set_idle false (set_position v1 s) = set_idle false s
  /\ set_idle false (set_idle b s) = set_idle false s
  /\ open (set_position v1 s) = set_position v1 (open s).
Proof.
  destruct_state. destruct v1, v2, b; run_methods; repeat split; reflexivity.
Qed.

(** ** Entering and leaving idle mode *)

(** X5: [set_idle] sets [is_idle] to its argument; with [False] it also
    writes the left eye's position target to the CENTER entry, computed from
    the eyes' current widths, and with [True] it leaves the target alone; it
    changes nothing else.  In every reached state the entry written on
    leaving idle mode is (23, 14). *)
Theorem set_idle_effect (value : bool) (s : Eyes) (calls : list Call) :
  (is_idle (set_idle value s) = value
   /\ left_target (set_idle value s)
      = (if value then left_target s
         else positions (get_max_x_limit s) (get_max_y_limit s) CENTER)
   /\ eye_same_but_targets (eye_l s) (eye_l (set_idle value s))
   /\ h_next (eye_l (set_idle value s)) = h_next (eye_l s)
   /\ eye_r (set_idle value s) = eye_r s
   /\ eyelid_happy_h (set_idle value s) = eyelid_happy_h s
   /\ eyelid_happy_h_next (set_idle value s) = eyelid_happy_h_next s
   /\ is_open (set_idle value s) = is_open s
   /\ mood (set_idle value s) = mood s
   /\ idle_timer (set_idle value s) = idle_timer s
   /\ blink_timer (set_idle value s) = blink_timer s)
  /\ Qeq_pair (left_target (set_idle false (run calls init))) (23, 14).
Proof.
  split.
  - destruct_state. destruct value; unfold eye_same_but_targets;
      run_methods; repeat split; reflexivity.
  - destruct (invariant_run calls) as [(Hwl & Hwr & _) _].
    revert Hwl Hwr. generalize (run calls init). intros s0.
    unfold Qeq_pair. destruct_state. run_methods. intros. split; qsolve.
Qed.

(** ** Rescheduling of the blink and of the idle wander *)

Lemma reopen_keeps_flags (s : Eyes) :
  is_open (reopen_after_blink s) = is_open s
  /\ is_idle (reopen_after_blink s) = is_idle s
  /\ blink_timer (reopen_after_blink s) = blink_timer s
  /\ idle_timer (reopen_after_blink s) = idle_timer s
  /\ left_target (reopen_after_blink s) = left_target s.
Proof. destruct_state. run_methods. split_ifs; repeat split; reflexivity. Qed.

Lemma blink_keeps_flags (env : World) (s : Eyes) :
  is_open (blink env s) = is_open s
  /\ is_idle (blink env s) = is_idle s
  /\ idle_timer (blink env s) = idle_timer s
  /\ left_target (blink env s) = left_target s.
Proof. destruct_state. run_methods. split_ifs; repeat split; reflexivity. Qed.

Lemma idle_keeps_flags (env : World) (s : Eyes) :
  is_open (idle_movement env s) = is_open s
  /\ is_idle (idle_movement env s) = is_idle s
  /\ blink_timer (idle_movement env s) = blink_timer s.
Proof. destruct_state. run_methods. split_ifs; repeat split; reflexivity. Qed.

Lemma blink_fired (env : World) (s : Eyes) :
  blink_fires env s = true ->
  h_next (eye_l (blink env s)) = 1
  /\ h_next (eye_r (blink env s)) = 1
  /\ blink_timer (blink env s)
     = time_blink_set env + uniform 3 6 (draw_blink env).
Proof.
  destruct_state. run_methods.
  split_ifs; intros H; try discriminate H; repeat split; reflexivity.
Qed.

Lemma idle_fired (env : World) (s : Eyes) :
  idle_fires env s = true ->
  x_next (eye_l (idle_movement env s))
  = uniform 0 (get_max_x_limit s) (draw_x env)
  /\ y_next (eye_l (idle_movement env s))
     = uniform 0 (get_max_y_limit s) (draw_y env)
  /\ idle_timer (idle_movement env s)
     = time_idle_set env + uniform 3 6 (draw_idle env).
Proof.
  unfold idle_fires. destruct_state. run_methods.
  split_ifs; intros H; try discriminate H; repeat split; reflexivity.
Qed.

Lemma max_x_reads_drawn_fields (a b : Eyes) :
  drawn_fields a = drawn_fields b -> get_max_x_limit a = get_max_x_limit b.
Proof.
  unfold drawn_fields, get_max_x_limit. intros H.
  injection H as _ _ Hwl _ _ _ _ _ Hwr _ _ _ _. rewrite Hwl, Hwr. reflexivity.
Qed.

Lemma uniform_3_6 (d : Q) : unit_draw d -> 3 <= uniform 3 6 d <= 6.
Proof. unfold unit_draw, uniform. intros Hd. lra. Qed.

(** X6: when the blink check fires (the eyes are open and the blink timer
    has expired), [update_eye_state] ends with both height targets at 1 and
    the blink timer 3 to 6 seconds after the clock reading, for a draw of
    the unit interval; so the blink check cannot fire again at a clock
    reading less than 3 seconds later. *)
Theorem blinks_three_seconds_apart (env env' : World) (s : Eyes) :
  blink_fires env s = true ->
  unit_draw (draw_blink env) ->
  time_blink env' < time_blink_set env + 3 ->
  h_next (eye_l (update_eye_state env s)) = 1
  /\ h_next (eye_r (update_eye_state env s)) = 1
  /\ time_blink_set env + 3 <= blink_timer (update_eye_state env s)
     <= time_blink_set env + 6
  /\ blink_fires env' (update_eye_state env s) = false.
Proof.
  intros Hfire Hd Hsoon. unfold update_eye_state.
  destruct (reopen_keeps_flags s) as (Ho & _ & Hb & _).
  assert (Hfire' : blink_fires env (reopen_after_blink s) = true).
  { unfold blink_fires in *. rewrite Ho, Hb. exact Hfire. }
  destruct (blink_fired env _ Hfire') as (Hl & Hr & Ht).
  destruct (idle_keeps_h_next env (blink env (reopen_after_blink s)))
    as [Hil Hir].
  destruct (idle_keeps_flags env (blink env (reopen_after_blink s)))
    as (_ & _ & Hit).
  pose proof (uniform_3_6 _ Hd) as Hu.
  assert (Hrange : time_blink_set env + 3
                   <= blink_timer
                        (idle_movement env (blink env (reopen_after_blink s)))
                   <= time_blink_set env + 6).
  { rewrite Hit, Ht. lra. }
  split; [congruence | split; [congruence | split; [exact Hrange |]]].
  unfold blink_fires.
  destruct (Qle_bool _ (time_blink env')) eqn:Hle; [| reflexivity].
  exfalso. apply Qle_bool_iff in Hle. lra.
Qed.

Lemma blinks_three_seconds_apart_witness :
  blink_fires world_at_100 (open init) = true
  /\ unit_draw (draw_blink world_at_100)
  /\ time_blink world_at_100 < time_blink_set world_at_100 + 3
  /\ blink_fires world_at_100 (update_eye_state world_at_100 (open init))
     = false.
Proof.
  assert (Hf : blink_fires world_at_100 (open init) = true) by reflexivity.
  assert (Hd : unit_draw (draw_blink world_at_100))
    by (split; discriminate).
  assert (Hs : time_blink world_at_100 < time_blink_set world_at_100 + 3)
    by reflexivity.
  split; [exact Hf | split; [exact Hd | split; [exact Hs |]]].
  apply (blinks_three_seconds_apart world_at_100 world_at_100 (open init)
           Hf Hd Hs).
Defined.

(** X7: when the idle check fires (idle mode is on, the eyes are open and
    the idle timer has expired), [update_eye_state] writes the left eye's
    position target to [uniform(0, max_x)], [uniform(0, max_y)] and the
    idle timer 3 to 6 seconds after the clock reading, for a draw of the
    unit interval; so the eyes cannot be sent to a new random position at a
    clock reading less than 3 seconds later. *)
Theorem wander_three_seconds_apart (env env' : World) (s : Eyes) :
  idle_fires env s = true ->
  unit_draw (draw_idle env) ->
  time_idle env' < time_idle_set env + 3 ->
  x_next (eye_l (update_eye_state env s))
  = uniform 0 (get_max_x_limit s) (draw_x env)
  /\ y_next (eye_l (update_eye_state env s))
     = uniform 0 (get_max_y_limit s) (draw_y env)
  /\ time_idle_set env + 3 <= idle_timer (update_eye_state env s)
     <= time_idle_set env + 6
  /\ idle_fires env' (update_eye_state env s) = false.
Proof.
  intros Hfire Hd Hsoon. unfold update_eye_state.
  destruct (reopen_keeps_flags s) as (Ho & Hi & _ & Ht & _).
  destruct (blink_keeps_flags env (reopen_after_blink s))
    as (Ho' & Hi' & Ht' & _).
  assert (Hfire' : idle_fires env (blink env (reopen_after_blink s)) = true).
  { unfold idle_fires in *. rewrite Ho', Hi', Ht', Ho, Hi, Ht. exact Hfire. }
  destruct (idle_fired env _ Hfire') as (Hx & Hy & Hn).
  pose proof (uniform_3_6 _ Hd) as Hu.
  assert (Hmx : get_max_x_limit (blink env (reopen_after_blink s))
                = get_max_x_limit s).
  { apply max_x_reads_drawn_fields.
    rewrite drawn_fields_blink. apply drawn_fields_reopen. }
  rewrite Hx, Hy, Hn, Hmx.
  split; [reflexivity | split; [reflexivity | split; [lra |]]].
  unfold idle_fires. rewrite Hn.
  destruct (Qle_bool _ (time_idle env')) eqn:Hle;
    [| apply andb_false_r].
  exfalso. apply Qle_bool_iff in Hle. lra.
Qed.

Lemma wander_three_seconds_apart_witness :
  idle_fires world_at_100 (set_idle true (open init)) = true
  /\ unit_draw (draw_idle world_at_100)
  /\ time_idle world_at_100 < time_idle_set world_at_100 + 3
  /\ idle_fires world_at_100
       (update_eye_state world_at_100 (set_idle true (open init))) = false.
Proof.
  assert (Hf : idle_fires world_at_100 (set_idle true (open init)) = true)
    by reflexivity.
  assert (Hd : unit_draw (draw_idle world_at_100)) by (split; discriminate).
  assert (Hs : time_idle world_at_100 < time_idle_set world_at_100 + 3)
    by reflexivity.
  split; [exact Hf | split; [exact Hd | split; [exact Hs |]]].
  apply (wander_three_seconds_apart world_at_100 world_at_100
           (set_idle true (open init)) Hf Hd Hs).
Defined.

(** ** The two eyes move as one *)

Lemma lockstep_init : lockstep init.
Proof. unfold lockstep. run_methods. repeat split; qsolve. Qed.

Lemma lockstep_reopen (s : Eyes) :
  lockstep s -> lockstep (reopen_after_blink s).
Proof.
  unfold lockstep. intros Hs. method_cases; reflect_conditions; qsolve.
Qed.

Lemma lockstep_blink (env : World) (s : Eyes) :
  lockstep s -> lockstep (blink env s).
Proof. unfold lockstep. intros Hs. method_cases; qsolve. Qed.

Lemma lockstep_idle (env : World) (s : Eyes) :
  lockstep s -> lockstep (idle_movement env s).
Proof. unfold lockstep. intros Hs. method_cases; qsolve. Qed.

Lemma lockstep_exec (c : Call) (s : Eyes) :
  widths_default s -> lockstep s -> lockstep (exec c s).
Proof.
  destruct c; cbn [exec].
  7: { intros _ Hs. unfold update_eye_state.
       apply lockstep_idle, lockstep_blink, lockstep_reopen, Hs. }
  all: unfold widths_default, lockstep; intros Hw Hs; method_cases; qsolve.
Qed.

Lemma invariant_lockstep_run (calls : list Call) :
  engine_invariant (run calls init) /\ lockstep (run calls init).
Proof.
  apply (run_invariant (fun s => engine_invariant s /\ lockstep s)).
  - split; [apply invariant_init | apply lockstep_init].
  - intros c s [Hi Hl]. split; [apply invariant_exec, Hi |].
    apply lockstep_exec; [apply Hi | exact Hl].
Qed.

(** X8: in every state reached by any sequence of public operations and
    update methods, the two eyes are level and of the same height, with the
    same height target, and the eyelids of the right eye mirror those of the
    left eye. *)
Theorem eyes_move_as_one (calls : list Call) :
  y (eye_r (run calls init)) == y (eye_l (run calls init))
  /\ h (eye_r (run calls init)) == h (eye_l (run calls init))
  /\ h_next (eye_r (run calls init)) == h_next (eye_l (run calls init))
  /\ eyelid_h_l (eye_r (run calls init))
     == eyelid_h_r (eye_l (run calls init))
  /\ eyelid_h_r (eye_r (run calls init))
     == eyelid_h_l (eye_l (run calls init)).
Proof.
  destruct (invariant_lockstep_run calls)
    as (_ & _ & Hy & Hh & Hn & Hl & Hr & _).
  repeat split; assumption.
Qed.

(** ** Executions under a condition on their calls *)

Section InvariantUnder.

Variable ok : Call -> Prop.
Variable P : Eyes -> Prop.
Hypothesis P_exec :
  forall (c : Call) (s : Eyes), ok c -> P s -> P (exec c s).

Lemma run_preserves_under (calls : list Call) (s : Eyes) :
  Forall ok calls -> P s -> P (run calls s).
Proof.
  revert s. induction calls as [| c rest IH]; intros s Hok Hs; [exact Hs |].
  inversion Hok as [| c' rest' Hc Hrest]; subst.
  cbn [run]. apply IH; [exact Hrest | apply P_exec; assumption].
Qed.

End InvariantUnder.

(** ** The eyes stay in the range of [set_position] *)

Lemma position_bounded_init : position_bounded init.
Proof. unfold position_bounded. run_methods. repeat split; qsolve. Qed.

Lemma position_bounded_reopen (s : Eyes) :
  position_bounded s -> position_bounded (reopen_after_blink s).
Proof. unfold position_bounded. intros Hs. method_cases; qsolve. Qed.

Lemma position_bounded_blink (env : World) (s : Eyes) :
  position_bounded s -> position_bounded (blink env s).
Proof. unfold position_bounded. intros Hs. method_cases; qsolve. Qed.

Lemma uniform_in_range (m d : Q) :
  0 <= m -> unit_draw d -> 0 <= uniform 0 m d <= m.
Proof.
  unfold unit_draw, uniform. intros Hm [Hd0 Hd1].
  setoid_replace (0 + (m - 0) * d) with (m * d) by ring.
  split.
  - apply Qmult_le_0_compat; assumption.
  - setoid_replace m with (m * 1) at 2 by ring.
    rewrite !(Qmult_comm m). apply Qmult_le_compat_r; assumption.
Qed.

Lemma position_bounded_idle (env : World) (s : Eyes) :
  widths_default s -> unit_draws env ->
  position_bounded s -> position_bounded (idle_movement env s).
Proof.
  intros Hw (_ & Hdx & Hdy & _) Hs.
  destruct (idle_fires env s) eqn:Hfire.
  - destruct (idle_fired env s Hfire) as (Hx & Hy & _).
    assert (Hmx : get_max_x_limit s == 46).
    { unfold widths_default in Hw. unfold get_max_x_limit. qsolve. }
    assert (Hmy : get_max_y_limit s == 28) by reflexivity.
    pose proof (uniform_in_range (get_max_x_limit s) _ ltac:(lra) Hdx) as Hux.
    pose proof (uniform_in_range (get_max_y_limit s) _ ltac:(lra) Hdy) as Huy.
    assert (Hcur : x (eye_l (idle_movement env s)) = x (eye_l s)
                   /\ y (eye_l (idle_movement env s)) = y (eye_l s)).
    { pose proof (drawn_fields_idle env s) as Hf. unfold drawn_fields in Hf.
      injection Hf as Hxl Hyl _ _ _ _ _ _ _ _ _ _ _. split; assumption. }
    destruct Hcur as [Hcx Hcy].
    unfold position_bounded in *. rewrite Hx, Hy, Hcx, Hcy.
    repeat split; lra.
  - replace (idle_movement env s) with s; [exact Hs |].
    unfold idle_fires in Hfire. unfold idle_movement. rewrite Hfire.
    reflexivity.
Qed.

Lemma position_bounded_exec (c : Call) (s : Eyes) :
  call_unit_draws c ->
  engine_invariant s /\ position_bounded s ->
  engine_invariant (exec c s) /\ position_bounded (exec c s).
Proof.
  intros Hc [Hi Hp]. split; [apply invariant_exec, Hi |].
  revert Hc Hi Hp. destruct c; cbn [exec call_unit_draws].
  7: { intros Hc Hi Hp. unfold update_eye_state.
       apply position_bounded_idle; [| exact Hc |].
       - apply invariant_blink, invariant_reopen, Hi.
       - apply position_bounded_blink, position_bounded_reopen, Hp. }
  all: unfold engine_invariant, widths_default, heights_bounded,
         happy_bounded, position_bounded;
    intros _ Hi Hp; method_cases; qsolve.
Qed.

Lemma position_bounded_run (calls : list Call) :
  Forall call_unit_draws calls ->
  engine_invariant (run calls init) /\ position_bounded (run calls init).
Proof.
  intros Hok.
  apply (run_preserves_under call_unit_draws
           (fun s => engine_invariant s /\ position_bounded s)
           position_bounded_exec calls init Hok).
  split; [apply invariant_init | apply position_bounded_init].
Qed.

(** X9: in every state reached by any sequence of public operations and
    update methods whose random draws lie in the unit interval, the left
    eye's position target lies in [0, 46] x [0, 28], the range of
    [set_position]; the left eye's [x] lies in [0, 46] and the right eye's
    right edge [x + w] is at most the screen width, so both eyes stay
    between the left and right edges of the screen; and both eyes' [y] lie in
    [0, 45.5], so their top edges stay on the screen. *)
Theorem eyes_stay_in_range (calls : list Call) :
  Forall call_unit_draws calls ->
  (0 <= x_next (eye_l (run calls init)) <= 46
   /\ 0 <= y_next (eye_l (run calls init)) <= 28)
  /\ 0 <= x (eye_l (run calls init)) <= 46
  /\ x (eye_r (run calls init)) + w (eye_r (run calls init)) <= screen_width
  /\ 0 <= y (eye_l (run calls init)) <= 45.5
  /\ 0 <= y (eye_r (run calls init)) <= 45.5.
Proof.
  intros Hok.
  destruct (position_bounded_run calls Hok)
    as [[(_ & Hwr & _) _] (Ht & Hx & Hy)].
  destruct (invariant_lockstep_run calls) as (_ & Hrx & Hry & _).
  unfold default_eye_w, default_eye_gap, screen_width in *.
  split; [exact Ht | split; [exact Hx |]].
  rewrite Hrx, Hwr, Hry. repeat split; lra.
Qed.

Lemma eyes_stay_in_range_witness :
  Forall call_unit_draws
    [call_open; call_set_idle true; call_update_eye_state world_at_100]
  /\ x (eye_r (run [call_open; call_set_idle true;
                    call_update_eye_state world_at_100] init))
     + w (eye_r (run [call_open; call_set_idle true;
                      call_update_eye_state world_at_100] init))
     <= screen_width.
Proof.
  assert (Hok : Forall call_unit_draws
                  [call_open; call_set_idle true;
                   call_update_eye_state world_at_100]).
  { repeat constructor; discriminate. }
  split; [exact Hok |].
  apply (eyes_stay_in_range _ Hok).
Defined.

(** ** Without idle mode the eyes only look at the named positions *)

Lemma idle_movement_off (env : World) (s : Eyes) :
  is_idle s = false -> idle_movement env s = s.
Proof. unfold idle_movement. intros ->. reflexivity. Qed.

Lemma positions_default (s : Eyes) (value : EyesPosition) :
  widths_default s ->
  Qeq_pair (positions (get_max_x_limit s) (get_max_y_limit s) value)
           (positions 46 28 value).
Proof.
  intros Hw.
  assert (Hx : get_max_x_limit s == 46).
  { unfold widths_default in Hw. unfold get_max_x_limit. qsolve. }
  assert (Hy : get_max_y_limit s == 28) by reflexivity.
  revert Hx Hy. generalize (get_max_x_limit s), (get_max_y_limit s).
  intros mx my Hx Hy. unfold Qeq_pair.
  destruct value; cbn [positions fst snd]; split;
    rewrite ?Hx, ?Hy; reflexivity.
Qed.

Lemma named_target_update_eye_state (env : World) (s : Eyes) :
  is_idle s = false ->
  is_idle (update_eye_state env s) = false
  /\ left_target (update_eye_state env s) = left_target s.
Proof.
  intros Hi. unfold update_eye_state.
  destruct (reopen_keeps_flags s) as (_ & Hi1 & _ & _ & Ht1).
  destruct (blink_keeps_flags env (reopen_after_blink s))
    as (_ & Hi2 & _ & Ht2).
  rewrite idle_movement_off by congruence.
  split; congruence.
Qed.

Lemma named_target_exec (c : Call) (s : Eyes) :
  leaves_idle_off c ->
  engine_invariant s /\ is_idle s = false /\ named_target s ->
  engine_invariant (exec c s)
  /\ is_idle (exec c s) = false /\ named_target (exec c s).
Proof.
  intros Hc (Hinv & Hi & Ht). split; [apply invariant_exec, Hinv |].
  destruct Hinv as [Hw _]. unfold named_target in *.
  destruct c; cbn [exec].
  - split; [exact Hi | exact Ht].
  - split; [exact Hi | exists CENTER].
    replace (left_target (close s))
      with (positions (get_max_x_limit s) (get_max_y_limit s) CENTER)
      by (destruct_state; reflexivity).
    apply positions_default, Hw.
  - split; [exact Hi | exact Ht].
  - split; [destruct value; exact Hi | exists value].
    rewrite set_position_left_target. apply positions_default, Hw.
  - destruct value; [exfalso; apply Hc; reflexivity |].
    split; [reflexivity | exists CENTER].
    replace (left_target (set_idle false s))
      with (positions (get_max_x_limit s) (get_max_y_limit s) CENTER)
      by (destruct_state; reflexivity).
    apply positions_default, Hw.
  - destruct (update_eye_position_flags s) as (_ & -> & _).
    split; [exact Hi |].
    replace (left_target (update_eye_position s)) with (left_target s)
      by (destruct_state; reflexivity).
    exact Ht.
  - destruct (named_target_update_eye_state env s Hi) as [-> ->].
    split; [reflexivity | exact Ht].
  - replace (is_idle (update_eyelids s)) with (is_idle s)
      by (destruct s as [el er hh hn io ii m it bt]; destruct m; reflexivity).
    replace (left_target (update_eyelids s)) with (left_target s)
      by (destruct s as [el er hh hn io ii m it bt]; destruct m; reflexivity).
    split; [exact Hi | exact Ht].
Qed.

(** X10: as long as [set_idle(True)] is never called, idle mode stays off
    and the left eye's position target is always one of the nine entries of
    the table of [set_position], computed for the default widths: the clock
    and the random generator never move the eyes. *)
Theorem without_idle_only_named_positions (calls : list Call) :
  Forall leaves_idle_off calls ->
  is_idle (run calls init) = false
  /\ exists value : EyesPosition,
       Qeq_pair (left_target (run calls init)) (positions 46 28 value).
Proof.
  intros Hok.
  apply (run_preserves_under leaves_idle_off
           (fun s => engine_invariant s /\ is_idle s = false
                     /\ named_target s)
           named_target_exec calls init Hok).
  split; [apply invariant_init | split; [reflexivity |]].
  exists CENTER. unfold Qeq_pair. split; reflexivity.
Qed.

Lemma without_idle_only_named_positions_witness :
  Forall leaves_idle_off
    [call_open; call_set_position TOP_LEFT;
     call_update_eye_state world_at_100]
  /\ is_idle (run [call_open; call_set_position TOP_LEFT;
                   call_update_eye_state world_at_100] init) = false.
Proof.
  assert (Hok : Forall leaves_idle_off
                  [call_open; call_set_position TOP_LEFT;
                   call_update_eye_state world_at_100]).
  { repeat constructor; discriminate. }
  split; [exact Hok |].
  apply (without_idle_only_named_positions _ Hok).
Defined.

(** ** The right eye's target *)

Lemma named_target_run (calls : list Call) :
  Forall leaves_idle_off calls ->
  engine_invariant (run calls init)
  /\ is_idle (run calls init) = false /\ named_target (run calls init).
Proof.
  intros Hok.
  apply (run_preserves_under leaves_idle_off
           (fun s => engine_invariant s /\ is_idle s = false
                     /\ named_target s)
           named_target_exec calls init Hok).
  split; [apply invariant_init | split; [reflexivity |]].
  exists CENTER. unfold Qeq_pair. split; reflexivity.
Qed.

Lemma update_eye_position_right_target (s : Eyes) :
  y_next (eye_r (update_eye_position s))
  = y_next (eye_l (update_eye_position s))
  /\ x_next (eye_r (update_eye_position s))
     = x_next (eye_l (update_eye_position s))
       + w (eye_l (update_eye_position s)) + default_eye_gap
  /\ left_target (update_eye_position s) = left_target s.
Proof. destruct_state. run_methods. repeat split; reflexivity. Qed.

(** C4 (amended): at the end of [update_eye_position], run in any state
    reached by any sequence of public operations and update methods, the
    right eye's vertical target is a copy of the left eye's,
    [right.y_next = left.y_next], and its horizontal target is the sum that
    the code computes, [left.x_next + left.w + default_eye_gap], in which
    [left.w] is [default_eye_w = 36].  When idle mode has never been switched
    on, the left eye's target is an entry of the table of positions, its
    [x_next] is 0, 23 or 46, and [right.x_next - left.x_next = 46].  (With
    the random target of an idle wander the sum is rounded, and the
    difference need not be 46.) *)
Theorem eye_pair_rigid (calls : list Call) :
  (y_next (eye_r (update_eye_position (run calls init)))
   = y_next (eye_l (update_eye_position (run calls init)))
   /\ x_next (eye_r (update_eye_position (run calls init)))
      = x_next (eye_l (update_eye_position (run calls init)))
        + w (eye_l (update_eye_position (run calls init)))
        + default_eye_gap
   /\ w (eye_l (update_eye_position (run calls init))) == default_eye_w
   /\ default_eye_w + default_eye_gap == 46)
  /\ (Forall leaves_idle_off calls ->
      (exists value : EyesPosition,
         Qeq_pair (left_target (update_eye_position (run calls init)))
                  (spec_position_table value))
      /\ (x_next (eye_l (update_eye_position (run calls init))) == 0
          \/ x_next (eye_l (update_eye_position (run calls init))) == 23
          \/ x_next (eye_l (update_eye_position (run calls init))) == 46)
      /\ x_next (eye_r (update_eye_position (run calls init)))
         - x_next (eye_l (update_eye_position (run calls init)))
         == 46).
Proof.
  destruct (update_eye_position_right_target (run calls init))
    as (Hy & Hx & Ht).
  assert (Hw : w (eye_l (update_eye_position (run calls init)))
               == default_eye_w).
  { apply (invariant_exec call_update_eye_position (run calls init)
             (invariant_run calls)). }
  split; [split; [exact Hy | split; [exact Hx | split; [exact Hw |]]] |].
  - reflexivity.
  - intros Hok. destruct (named_target_run calls Hok) as (_ & _ & [v Hv]).
    rewrite <- Ht in Hv. destruct Hv as [Hvx Hvy].
    split; [| split].
    + exists v. split; [rewrite Hvx | rewrite Hvy];
        destruct v; reflexivity.
    + cbn [left_target fst] in Hvx. rewrite Hvx.
      destruct v; cbn [positions fst];
        first [left; reflexivity | right; left; reflexivity
              | right; right; reflexivity].
    + rewrite Hx, Hw. unfold default_eye_w, default_eye_gap. lra.
Qed.

Lemma eye_pair_rigid_witness :
  Forall leaves_idle_off [call_open; call_set_position RIGHT]
  /\ x_next (eye_r (update_eye_position
                      (run [call_open; call_set_position RIGHT] init)))
     - x_next (eye_l (update_eye_position
                        (run [call_open; call_set_position RIGHT] init)))
     == 46.
Proof.
  assert (Hok : Forall leaves_idle_off [call_open; call_set_position RIGHT]).
  { repeat constructor; discriminate. }
  split; [exact Hok |].
  apply (proj2 (eye_pair_rigid [call_open; call_set_position RIGHT]) Hok).
Defined.

(** C4 as stated fails in binary64 after an idle wander: with the left
    eye's target at [uniform(0, 46)] for the draw 0.9, the right eye's target
    computed by line 178 is [left.x_next + 36 + 10], rounded twice, and
    [right.x_next - left.x_next] is 46.000000000000007, not 46. *)
Lemma eye_pair_not_rigid_in_binary64 :
  (right_x_next_double wander_x_double 36 10 - wander_x_double =? 46)%float
  = false.
Proof. vm_compute. reflexivity. Qed.

(** ** The mood is cosmetic *)

Lemma geometry_update_eyelids (s : Eyes) :
  geometry (update_eyelids s) = geometry s.
Proof. unfold geometry. method_cases; reflexivity. Qed.

Lemma geometry_set_mood (m : EyesMood) (s : Eyes) :
  geometry (set_mood m s) = geometry s.
Proof. reflexivity. Qed.

Lemma geometry_reopen (a b : Eyes) :
  geometry a = geometry b ->
  geometry (reopen_after_blink a) = geometry (reopen_after_blink b).
Proof. same_geometry. Qed.

Lemma geometry_blink (env : World) (a b : Eyes) :
  geometry a = geometry b -> geometry (blink env a) = geometry (blink env b).
Proof. same_geometry. Qed.

Lemma geometry_idle (env : World) (a b : Eyes) :
  geometry a = geometry b ->
  geometry (idle_movement env a) = geometry (idle_movement env b).
Proof. same_geometry. Qed.

Lemma geometry_exec (c : Call) (a b : Eyes) :
  geometry a = geometry b -> geometry (exec c a) = geometry (exec c b).
Proof.
  destruct c; cbn [exec].
  3: { intros Hg. rewrite !geometry_set_mood. exact Hg. }
  6: { intros Hg. unfold update_eye_state.
       apply geometry_idle, geometry_blink, geometry_reopen, Hg. }
  6: { intros Hg. rewrite !geometry_update_eyelids. exact Hg. }
  all: same_geometry.
Qed.

Lemma geometry_erase_mood (c1 c2 : Call) (s : Eyes) :
  erase_mood c1 = erase_mood c2 ->
  geometry (exec c1 s) = geometry (exec c2 s).
Proof.
  destruct c1, c2; cbn [erase_mood]; intros He;
    try discriminate He; try (injection He as ->); reflexivity.
Qed.

(** X11: the mood is cosmetic: two executions that make the same calls but
    for the values passed to [set_mood], from states with the same positions,
    sizes, targets, flags and timers, end with the same positions, sizes,
    targets, flags and timers; the mood reaches nothing but the eyelids. *)
Theorem mood_never_moves_the_eyes (calls1 calls2 : list Call) (s1 s2 : Eyes) :
  map erase_mood calls1 = map erase_mood calls2 ->
  geometry s1 = geometry s2 ->
  geometry (run calls1 s1) = geometry (run calls2 s2).
Proof.
  revert calls2 s1 s2.
  induction calls1 as [| c1 rest1 IH]; intros [| c2 rest2] s1 s2 He Hg;
    try discriminate He; [exact Hg |].
  cbn [map] in He. injection He as Hc Hrest.
  cbn [run]. apply IH; [exact Hrest |].
  rewrite (geometry_erase_mood c1 c2 s1 Hc). apply geometry_exec, Hg.
Qed.

Lemma mood_never_moves_the_eyes_witness :
  map erase_mood [call_open; call_set_mood ANGRY; call_update_eyelids]
  = map erase_mood [call_open; call_set_mood HAPPY; call_update_eyelids]
  /\ geometry init = geometry init
  /\ geometry (run [call_open; call_set_mood ANGRY; call_update_eyelids] init)
     = geometry
         (run [call_open; call_set_mood HAPPY; call_update_eyelids] init).
Proof.
  split; [reflexivity | split; [reflexivity |]].
  apply (mood_never_moves_the_eyes
           [call_open; call_set_mood ANGRY; call_update_eyelids]
           [call_open; call_set_mood HAPPY; call_update_eyelids]
           init init); reflexivity.
Defined.

(** ** Easing of the position over the frames of the drawing loop *)

Lemma run_frames_cons (env : World) (envs : list World) (s : Eyes) :
  run (frames (env :: envs)) s = run (frames envs) (run (frame env) s).
Proof. unfold frames. cbn [flat_map]. apply run_app. Qed.

Lemma run_frames_app (envs envs' : list World) (s : Eyes) :
  run (frames (envs ++ envs')) s
  = run (frames envs') (run (frames envs) s).
Proof. unfold frames. rewrite flat_map_app. apply run_app. Qed.

Lemma update_eye_position_left_x (s : Eyes) :
  widths_default s ->
  x (eye_l (update_eye_position s))
  == interpolate (x (eye_l s)) (x_next (eye_l s))
  /\ x_next (eye_l (update_eye_position s)) = x_next (eye_l s).
Proof.
  unfold widths_default. intros Hw. destruct_state. run_methods.
  split; [qsolve | reflexivity].
Qed.

Lemma update_eyelids_left_x (s : Eyes) :
  x (eye_l (update_eyelids s)) = x (eye_l s)
  /\ x_next (eye_l (update_eyelids s)) = x_next (eye_l s)
  /\ is_idle (update_eyelids s) = is_idle s.
Proof.
  pose proof (geometry_update_eyelids s) as Hg. unfold geometry in Hg.
  injection Hg as Hx _ _ _ Hn _ _ _ _ _ _ _ _ _ _ _ _ _ _ Hi.
  repeat split; assumption.
Qed.

Lemma frame_left_x (env : World) (s : Eyes) :
  engine_invariant s -> is_idle s = false ->
  engine_invariant (run (frame env) s)
  /\ is_idle (run (frame env) s) = false
  /\ x_next (eye_l (run (frame env) s)) = x_next (eye_l s)
  /\ x (eye_l (run (frame env) s))
     == interpolate (x (eye_l s)) (x_next (eye_l s)).
Proof.
  intros Hinv Hi. cbn [run frame exec].
  set (s1 := update_eye_position s).
  set (s2 := update_eye_state env s1).
  destruct (update_eye_position_left_x s (proj1 Hinv)) as [Hx1 Hn1].
  destruct (update_eye_position_flags s) as (_ & Hi1 & _).
  fold s1 in Hx1, Hn1, Hi1.
  destruct (named_target_update_eye_state env s1) as [Hi2 Ht2];
    [congruence |].
  fold s2 in Hi2, Ht2.
  assert (Hn2 : x_next (eye_l s2) = x_next (eye_l s1))
    by exact (f_equal fst Ht2).
  assert (Hx2 : x (eye_l s2) = x (eye_l s1)).
  { pose proof (drawn_fields_exec (call_update_eye_state env) s1 eq_refl)
      as Hf.
    unfold drawn_fields in Hf. cbn [exec] in Hf. fold s2 in Hf.
    injection Hf as Hx _ _ _ _ _ _ _ _ _ _ _ _. exact Hx. }
  destruct (update_eyelids_left_x s2) as (Hx3 & Hn3 & Hi3).
  split.
  - apply (invariant_exec call_update_eyelids).
    apply (invariant_exec (call_update_eye_state env)).
    apply (invariant_exec call_update_eye_position). exact Hinv.
  - split; [congruence | split; [congruence |]].
    rewrite Hx3, Hx2. exact Hx1.
Qed.

Lemma interpolate_stays_between (lo hi c t : Q) :
  lo <= c <= hi -> lo <= t <= hi -> lo <= interpolate c t <= hi.
Proof. intros Hc Ht. qsolve. Qed.

Lemma frames_left_x (envs : list World) (s : Eyes) (lo hi : Q) :
  engine_invariant s -> is_idle s = false ->
  lo <= x (eye_l s) <= hi -> lo <= x_next (eye_l s) <= hi ->
  engine_invariant (run (frames envs) s)
  /\ is_idle (run (frames envs) s) = false
  /\ x_next (eye_l (run (frames envs) s)) = x_next (eye_l s)
  /\ lo <= x (eye_l (run (frames envs) s)) <= hi
  /\ Qabs (x (eye_l (run (frames envs) s)) - x_next (eye_l s))
     <= Qabs (x (eye_l s) - x_next (eye_l s)).
Proof.
  revert s. induction envs as [| env rest IH]; intros s Hinv Hi Hx Hn.
  - cbn [frames flat_map run].
    split; [exact Hinv | split; [exact Hi | split; [reflexivity |]]].
    split; [exact Hx | apply Qle_refl].
  - rewrite run_frames_cons.
    destruct (frame_left_x env s Hinv Hi) as (Hinv' & Hi' & Hn' & Hx').
    assert (Hb : lo <= x (eye_l (run (frame env) s)) <= hi).
    { rewrite Hx'. apply interpolate_stays_between; assumption. }
    destruct (IH _ Hinv' Hi' Hb ltac:(rewrite Hn'; exact Hn))
      as (Hinv2 & Hi2 & Hn2 & Hb2 & Hd2).
    rewrite Hn' in Hn2, Hd2.
    split; [exact Hinv2 | split; [exact Hi2 | split; [exact Hn2 |]]].
    split; [exact Hb2 |].
    apply Qle_trans with (1 := Hd2).
    rewrite Hx'. apply interpolate_no_farther.
Qed.

(** X12: with idle mode off, iterations of the drawing loop with no public
    call in between leave the left eye's horizontal target alone and move
    the left eye's [x] toward it without ever overshooting: from any reached
    state, after any number of frames [x] lies between its initial value and
    the target, and further frames never take it farther from the target,
    whatever the clock and the random generator return. *)
Theorem position_eases_over_frames
  (calls : list Call) (envs envs' : list World) :
  is_idle (run calls init) = false ->
  x_next (eye_l (run (frames envs) (run calls init)))
  = x_next (eye_l (run calls init))
  /\ Qmin (x (eye_l (run calls init))) (x_next (eye_l (run calls init)))
     <= x (eye_l (run (frames envs) (run calls init)))
     <= Qmax (x (eye_l (run calls init))) (x_next (eye_l (run calls init)))
  /\ Qabs (x (eye_l (run (frames (envs ++ envs')) (run calls init)))
           - x_next (eye_l (run calls init)))
     <= Qabs (x (eye_l (run (frames envs) (run calls init)))
              - x_next (eye_l (run calls init))).
Proof.
  intros Hi. pose proof (invariant_run calls) as Hinv.
  set (s0 := run calls init) in *.
  assert (Hx0 : Qmin (x (eye_l s0)) (x_next (eye_l s0)) <= x (eye_l s0)
                <= Qmax (x (eye_l s0)) (x_next (eye_l s0)))
    by (split; [apply Q.le_min_l | apply Q.le_max_l]).
  assert (Hn0 : Qmin (x (eye_l s0)) (x_next (eye_l s0)) <= x_next (eye_l s0)
                <= Qmax (x (eye_l s0)) (x_next (eye_l s0)))
    by (split; [apply Q.le_min_r | apply Q.le_max_r]).
  destruct (frames_left_x envs s0 _ _ Hinv Hi Hx0 Hn0)
    as (Hinv1 & Hi1 & Hn1 & Hb1 & _).
  split; [exact Hn1 | split; [exact Hb1 |]].
  rewrite run_frames_app.
  destruct (frames_left_x envs' (run (frames envs) s0) _ _ Hinv1 Hi1 Hb1
              ltac:(rewrite Hn1; exact Hn0))
    as (_ & _ & _ & _ & Hd).
  rewrite Hn1 in Hd. exact Hd.
Qed.

Lemma position_eases_over_frames_witness :
  is_idle (run [call_open; call_set_position RIGHT] init) = false
  /\ x_next (eye_l (run (frames [world_at_100; world_at_100])
                        (run [call_open; call_set_position RIGHT] init)))
     = x_next (eye_l (run [call_open; call_set_position RIGHT] init)).
Proof.
  assert (Hi : is_idle (run [call_open; call_set_position RIGHT] init)
               = false) by reflexivity.
  split; [exact Hi |].
  exact (proj1 (position_eases_over_frames
                  [call_open; call_set_position RIGHT]
                  [world_at_100; world_at_100] [] Hi)).
Defined.

(** ** A blink reopens *)

Lemma h_next_written_exec (c : Call) (s : Eyes) :
  h_next_written s -> h_next_written (exec c s).
Proof.
  unfold h_next_written. destruct c; cbn [exec].
  7: { intros Hs. unfold update_eye_state.
       destruct (idle_keeps_h_next env (blink env (reopen_after_blink s)))
         as [-> ->].
       revert Hs. generalize s. clear s. intros s Hs.
       assert (Hr : (h_next (eye_l (reopen_after_blink s)) = 1
                     \/ h_next (eye_l (reopen_after_blink s)) = default_eye_h)
                    /\ (h_next (eye_r (reopen_after_blink s)) = 1
                        \/ h_next (eye_r (reopen_after_blink s))
                           = default_eye_h)).
       { revert Hs. method_cases; intros [Hl Hr]; split; auto. }
       revert Hr. generalize (reopen_after_blink s). intros s0.
       method_cases; intros [Hl Hr]; split; auto. }
  all: method_cases; intros [Hl Hr]; split; auto.
Qed.

Lemma h_next_written_run (calls : list Call) :
  h_next_written (run calls init).
Proof.
  apply run_invariant; [| apply h_next_written_exec].
  split; left; reflexivity.
Qed.

Lemma blink_not_fired (env : World) (s : Eyes) :
  before_blink s env -> blink env s = s.
Proof.
  unfold before_blink, blink. intros Hlt.
  destruct (Qle_bool (blink_timer s) (time_blink env)) eqn:Hle;
    [| reflexivity].
  exfalso. apply Qle_bool_iff in Hle. lra.
Qed.

Lemma update_eye_position_heights (s : Eyes) :
  h (eye_l (update_eye_position s))
  = interpolate (h (eye_l s)) (h_next (eye_l s))
  /\ h (eye_r (update_eye_position s))
     = interpolate (h (eye_r s)) (h_next (eye_r s))
  /\ h_next (eye_l (update_eye_position s)) = h_next (eye_l s)
  /\ h_next (eye_r (update_eye_position s)) = h_next (eye_r s).
Proof. destruct_state. run_methods. repeat split; reflexivity. Qed.

Lemma reopen_h_next (s : Eyes) :
  is_open s = true ->
  h_next (eye_l (reopen_after_blink s))
  = (if Qle_bool (h (eye_l s)) 1.1 then default_eye_h else h_next (eye_l s))
  /\ h_next (eye_r (reopen_after_blink s))
     = (if Qle_bool (h (eye_r s)) 1.1 then default_eye_h
        else h_next (eye_r s))
  /\ h (eye_l (reopen_after_blink s)) = h (eye_l s)
  /\ h (eye_r (reopen_after_blink s)) = h (eye_r s).
Proof.
  destruct s as [el er hh hn io ii m it bt]. cbn [is_open]. intros ->.
  destruct el, er. run_methods. split_ifs; repeat split; reflexivity.
Qed.

Lemma update_eyelids_heights (s : Eyes) :
  h (eye_l (update_eyelids s)) = h (eye_l s)
  /\ h (eye_r (update_eyelids s)) = h (eye_r s)
  /\ h_next (eye_l (update_eyelids s)) = h_next (eye_l s)
  /\ h_next (eye_r (update_eyelids s)) = h_next (eye_r s)
  /\ is_open (update_eyelids s) = is_open s
  /\ blink_timer (update_eyelids s) = blink_timer s.
Proof.
  pose proof (geometry_update_eyelids s) as Hg. unfold geometry in Hg.
  injection Hg as _ _ _ Hhl _ _ _ Hnl _ _ _ Hhr _ _ _ Hnr _ Hbt Hio _.
  repeat split; assumption.
Qed.

(** One frame on open eyes, at a reading of the clock before the blink
    timer. *)
Lemma frame_heights (env : World) (s : Eyes) :
  is_open s = true -> before_blink s env ->
  is_open (run (frame env) s) = true
  /\ blink_timer (run (frame env) s) = blink_timer s
  /\ h (eye_l (run (frame env) s))
     = interpolate (h (eye_l s)) (h_next (eye_l s))
  /\ h (eye_r (run (frame env) s))
     = interpolate (h (eye_r s)) (h_next (eye_r s))
  /\ h_next (eye_l (run (frame env) s))
     = (if Qle_bool (h (eye_l (run (frame env) s))) 1.1
        then default_eye_h else h_next (eye_l s))
  /\ h_next (eye_r (run (frame env) s))
     = (if Qle_bool (h (eye_r (run (frame env) s))) 1.1
        then default_eye_h else h_next (eye_r s)).
Proof.
  intros Ho Hb. cbn [run frame exec].
  set (s1 := update_eye_position s).
  destruct (update_eye_position_heights s) as (Hl1 & Hr1 & Hnl1 & Hnr1).
  destruct (update_eye_position_flags s) as (Ho1 & _ & _ & _ & Hb1).
  fold s1 in Hl1, Hr1, Hnl1, Hnr1, Ho1, Hb1.
  assert (Ho1' : is_open s1 = true) by congruence.
  destruct (reopen_h_next s1 Ho1') as (Hnl2 & Hnr2 & Hl2 & Hr2).
  destruct (reopen_keeps_flags s1) as (Ho2 & _ & Hb2 & _).
  unfold update_eye_state.
  set (s2 := reopen_after_blink s1) in *.
  assert (Hb2' : before_blink s2 env).
  { unfold before_blink in *. rewrite Hb2, Hb1. exact Hb. }
  rewrite (blink_not_fired env s2 Hb2').
  destruct (idle_keeps_h_next env s2) as [Hnl3 Hnr3].
  destruct (idle_keeps_flags env s2) as (Ho3 & _ & Hb3).
  pose proof (drawn_fields_idle env s2) as Hf. unfold drawn_fields in Hf.
  injection Hf as _ _ _ Hl3 _ _ _ _ _ Hr3 _ _ _.
  set (s3 := idle_movement env s2) in *.
  destruct (update_eyelids_heights s3) as (Hl4 & Hr4 & Hnl4 & Hnr4 & Ho4 & Hb4).
  rewrite Hl4, Hr4, Hnl4, Hnr4, Ho4, Hb4.
  rewrite Hl3, Hr3, Hnl3, Hnr3, Ho3, Hb3.
  rewrite Hnl2, Hnr2, Hl2, Hr2, Ho2, Hb2.
  rewrite Hl1, Hr1, Hnl1, Hnr1, Hb1.
  repeat split; congruence.
Qed.

Lemma closing_step (k : nat) (hc hn : Q) :
  closing k hc hn ->
  closing (S k) (interpolate hc hn)
    (if Qle_bool (interpolate hc hn) 1.1 then default_eye_h else hn).
Proof.
  unfold closing. intros [-> | (-> & Hd & _)].
  - left. destruct (Qle_bool _ _); reflexivity.
  - destruct (Qle_bool (interpolate hc 1) 1.1) eqn:Hle; [left; reflexivity |].
    right. reflect_conditions. split; [reflexivity | split; [| right; assumption]].
    rewrite pow2_S.
    setoid_replace ((interpolate hc 1 - 1) * (2 * pow2 k))
      with ((hc - 1) * pow2 k) by (unfold interpolate; field).
    exact Hd.
Qed.

Lemma closing_done (k : nat) (hc hn : Q) :
  (9 <= k)%nat -> closing k hc hn -> hn = default_eye_h.
Proof.
  intros Hk [-> | (_ & Hd & [-> | Hh])]; [reflexivity | lia |].
  exfalso.
  pose proof (pow2_mono 9 k Hk) as Hp.
  change (pow2 9) with 512 in Hp.
  assert (Hbig : (1 # 10) * 512 <= (hc - 1) * pow2 k).
  { apply Qle_trans with ((hc - 1) * 512).
    - apply Qmult_le_compat_r; lra.
    - rewrite !(Qmult_comm (hc - 1)). apply Qmult_le_compat_r; lra. }
  lra.
Qed.

Lemma frames_closing (envs : list World) (s : Eyes) (k : nat) :
  is_open s = true -> Forall (before_blink s) envs ->
  closing k (h (eye_l s)) (h_next (eye_l s)) ->
  closing k (h (eye_r s)) (h_next (eye_r s)) ->
  closing (k + length envs) (h (eye_l (run (frames envs) s)))
          (h_next (eye_l (run (frames envs) s)))
  /\ closing (k + length envs) (h (eye_r (run (frames envs) s)))
             (h_next (eye_r (run (frames envs) s))).
Proof.
  revert s k. induction envs as [| env rest IH]; intros s k Ho Hb Hl Hr.
  - cbn [length frames flat_map run]. rewrite Nat.add_0_r. split; assumption.
  - rewrite run_frames_cons.
    inversion Hb as [| env' rest' Henv Hrest]; subst.
    destruct (frame_heights env s Ho Henv)
      as (Ho' & Hb' & Hhl & Hhr & Hnl & Hnr).
    cbn [length]. rewrite Nat.add_succ_r, <- Nat.add_succ_l.
    apply IH.
    + exact Ho'.
    + unfold before_blink in *. rewrite Hb'. exact Hrest.
    + rewrite Hnl, Hhl. apply closing_step, Hl.
    + rewrite Hnr, Hhr. apply closing_step, Hr.
Qed.

(** X14: a blink reopens.  From any reached state with open eyes, nine
    iterations of the drawing loop (or more) with no public call in between
    and clock readings before the blink timer end with both height targets
    at [default_eye_h]: a height sent to 1 by a blink has come below 1.1 by
    then, and [update_eye_state] has sent it back. *)
Theorem blink_reopens_within_nine_frames
  (calls : list Call) (envs : list World) :
  is_open (run calls init) = true ->
  Forall (before_blink (run calls init)) envs ->
  (9 <= length envs)%nat ->
  h_next (eye_l (run (frames envs) (run calls init))) = default_eye_h
  /\ h_next (eye_r (run (frames envs) (run calls init))) = default_eye_h.
Proof.
  intros Ho Hb Hlen.
  destruct (invariant_run calls) as (_ & ((Hl & _) & (Hr & _)) & _).
  destruct (h_next_written_run calls) as [Hnl Hnr].
  assert (Hcl : closing 0 (h (eye_l (run calls init)))
                        (h_next (eye_l (run calls init)))).
  { destruct Hnl as [H1 | H36]; [right | left; exact H36].
    split; [exact H1 | split; [| left; reflexivity]].
    change (pow2 0) with 1. unfold default_eye_h in Hl. lra. }
  assert (Hcr : closing 0 (h (eye_r (run calls init)))
                        (h_next (eye_r (run calls init)))).
  { destruct Hnr as [H1 | H36]; [right | left; exact H36].
    split; [exact H1 | split; [| left; reflexivity]].
    change (pow2 0) with 1. unfold default_eye_h in Hr. lra. }
  destruct (frames_closing envs _ 0 Ho Hb Hcl Hcr) as [Hfl Hfr].
  split; [apply (closing_done _ _ _ Hlen Hfl)
         | apply (closing_done _ _ _ Hlen Hfr)].
Qed.

Lemma blink_reopens_within_nine_frames_witness :
  is_open (run [call_open; call_update_eye_state world_at_100] init) = true
  /\ Forall (before_blink
               (run [call_open; call_update_eye_state world_at_100] init))
            (repeat world_at_100 9)
  /\ (9 <= length (repeat world_at_100 9))%nat
  /\ h_next (eye_l (run (frames (repeat world_at_100 9))
                        (run [call_open; call_update_eye_state world_at_100]
                             init)))
     = default_eye_h.
Proof.
  assert (Ho : is_open (run [call_open; call_update_eye_state world_at_100]
                            init) = true) by reflexivity.
  assert (Hb : Forall (before_blink
                         (run [call_open; call_update_eye_state world_at_100]
                              init))
                      (repeat world_at_100 9)).
  { unfold before_blink.
    repeat (apply Forall_cons; [vm_compute; reflexivity |]).
    apply Forall_nil. }
  assert (Hlen : (9 <= length (repeat world_at_100 9))%nat) by apply le_n.
  split; [exact Ho | split; [exact Hb | split; [exact Hlen |]]].
  exact (proj1 (blink_reopens_within_nine_frames
                  [call_open; call_update_eye_state world_at_100]
                  (repeat world_at_100 9) Ho Hb Hlen)).
Defined.

(** ** The happy eyelids *)

Lemma quotient_between (a b : Q) :
  0 <= a -> 1 <= b <= 3 -> a / 3 <= a / b <= a.
Proof.
  intros Ha [Hb1 Hb3]. split.
  - apply Qle_shift_div_l; [lra |].
    setoid_replace (a / 3 * b) with (b * (a / 3)) by ring.
    setoid_replace a with (3 * (a / 3)) at 2 by field.
    apply Qmult_le_compat_r; [exact Hb3 |].
    unfold Qdiv. literals. change (/ 3) with (1 # 3). lra.
  - apply Qle_shift_div_r; [lra |].
    setoid_replace a with (1 * a) at 1 by ring.
    rewrite (Qmult_comm a b). apply Qmult_le_compat_r; assumption.
Qed.

(** X15: in every state reached by any sequence of public operations and
    update methods, the happy eyelid of each eye is drawn as the black
    rounded rectangle from [(x, y + h / eyelid_happy_h + 2)] to
    [(x + w, y + h + 2)], and the quotient lies between [h / 3] and [h]: the
    happy eyelid never reaches above the lowest two thirds of the eye. *)
Theorem happy_eyelid_covers_lower_part (calls : list Call) :
  exists ql qr : Q,
    draw_happy_eyelid (eyelid_happy_h (run calls init))
                      (eye_l (run calls init))
    = Some (rounded_rectangle
              (x (eye_l (run calls init)),
               y (eye_l (run calls init)) + ql + 2)
              (x (eye_l (run calls init)) + w (eye_l (run calls init)),
               y (eye_l (run calls init)) + h (eye_l (run calls init)) + 2)
              default_eye_radius black)
    /\ draw_happy_eyelid (eyelid_happy_h (run calls init))
                         (eye_r (run calls init))
       = Some (rounded_rectangle
                 (x (eye_r (run calls init)),
                  y (eye_r (run calls init)) + qr + 2)
                 (x (eye_r (run calls init)) + w (eye_r (run calls init)),
                  y (eye_r (run calls init)) + h (eye_r (run calls init)) + 2)
                 default_eye_radius black)
    /\ h (eye_l (run calls init)) / 3 <= ql <= h (eye_l (run calls init))
    /\ h (eye_r (run calls init)) / 3 <= qr <= h (eye_r (run calls init)).
Proof.
  destruct (invariant_run calls) as (_ & ((Hl & _) & (Hr & _)) & Hh).
  unfold happy_bounded in Hh.
  assert (Hnz : ~ eyelid_happy_h (run calls init) == 0) by (intros Hz; lra).
  exists (h (eye_l (run calls init)) / eyelid_happy_h (run calls init)).
  exists (h (eye_r (run calls init)) / eyelid_happy_h (run calls init)).
  unfold draw_happy_eyelid. rewrite !py_div_defined by exact Hnz.
  split; [reflexivity | split; [reflexivity |]].
  split; apply quotient_between; (lra || exact Hh).
Qed.

(** ** Easing of the eyelids *)

(** X16: [update_eyelids] moves each eyelid cutoff halfway to the target it
    has just computed from the mood and the eye's current [y] and [h], not
    to the target of the frame before, and it changes no position, size,
    target of the geometry, flag or timer. *)
Theorem eyelids_ease_to_fresh_targets (s : Eyes) :
  eyelid_h_l (eye_l (update_eyelids s))
  = interpolate (eyelid_h_l (eye_l s))
      (fst (spec_eyelid_table (mood s) (y (eye_l s)) (h (eye_l s))))
  /\ eyelid_h_r (eye_l (update_eyelids s))
     = interpolate (eyelid_h_r (eye_l s))
         (snd (spec_eyelid_table (mood s) (y (eye_l s)) (h (eye_l s))))
  /\ eyelid_h_l (eye_r (update_eyelids s))
     = interpolate (eyelid_h_l (eye_r s))
         (snd (spec_eyelid_table (mood s) (y (eye_r s)) (h (eye_r s))))
  /\ eyelid_h_r (eye_r (update_eyelids s))
     = interpolate (eyelid_h_r (eye_r s))
         (fst (spec_eyelid_table (mood s) (y (eye_r s)) (h (eye_r s))))
  /\ geometry (update_eyelids s) = geometry s
  /\ mood (update_eyelids s) = mood s.
Proof.
  split; [| split; [| split; [| split; [| split]]]].
  5: apply geometry_update_eyelids.
  all: destruct s as [el er hh hn io ii m it bt]; destruct m; reflexivity.
Qed.

(** ** The constructor *)

(** X17: [__init__] places the pair of eyes in the middle of the screen:
    the margin left of the left eye equals the margin right of the right
    eye, the margin above equals the margin below an eye of the default
    height, and the left eye's position and position target are the CENTER
    entry of [set_position]; the eyes start closed, with idle mode off, so
    the drawing loop consults neither the clock nor the random generator
    until [open] is called. *)
Theorem init_centred (env : World) :
  x (eye_l init) == screen_width - (x (eye_r init) + w (eye_r init))
  /\ y (eye_l init) == screen_height - (y (eye_l init) + default_eye_h)
  /\ Qeq_pair (x (eye_l init), y (eye_l init))
       (positions (get_max_x_limit init) (get_max_y_limit init) CENTER)
  /\ Qeq_pair (left_target init)
       (positions (get_max_x_limit init) (get_max_y_limit init) CENTER)
  /\ Qeq_pair (x (eye_l init), y (eye_l init)) (23, 14)
  /\ is_open init = false
  /\ is_idle init = false
  /\ update_eye_state env (update_eye_position init)
     = update_eye_position init.
Proof.
  unfold Qeq_pair.
  repeat split; try reflexivity.
  apply update_eye_state_closed. reflexivity.
Qed.

(** ** The lower edge of an eye *)

(** X18: the eyes are not kept above the lower edge of the screen: it is
    not true that [y + h <= screen_height] in every reached state, even when
    the random draws lie in the unit interval.  After [open()] and
    [set_position(BOTTOM)], twelve iterations of the drawing loop at clock
    reading 100 make the eyes blink (frame 1), close, reopen (frame 9) and
    grow faster than they are recentred: [y + h] of the left eye is then
    above 65, with a screen height of 64. *)
Theorem lower_edge_can_leave_screen :
  ~ (forall calls : list Call,
       Forall call_unit_draws calls ->
       y (eye_l (run calls init)) + h (eye_l (run calls init))
       <= screen_height).
Proof.
  intros Hall.
  assert (Hok : Forall call_unit_draws
                  ([call_open; call_set_position BOTTOM]
                   ++ frames (repeat world_at_100 12))).
  { cbn [repeat frames flat_map frame app].
    repeat (apply Forall_cons;
            [first [exact I | repeat split; discriminate] |]).
    apply Forall_nil. }
  specialize (Hall _ Hok).
  assert (Hover : 65 < y (eye_l (run ([call_open; call_set_position BOTTOM]
                                      ++ frames (repeat world_at_100 12))
                                     init))
                       + h (eye_l (run ([call_open; call_set_position BOTTOM]
                                        ++ frames (repeat world_at_100 12))
                                       init)))
    by (vm_compute; reflexivity).
  unfold screen_height in Hall. lra.
Qed.
